(** * Go-TLS uprobe attacher: a shallow embedding of [pkg/network/usm/ebpf_gotls.go]

    The development follows the Go source function by function.  Unsigned
    integers are [Z] with their wrap-around written out, Go maps are [gmap],
    Go sets ([map[K]struct{}]) are [gset], Go errors are an inductive type
    with the [%w] wrapping of [fmt.Errorf], and the code that mutates the
    eBPF manager, the eBPF map, the telemetry counters and the captured
    [probeList] variable is written in a small state monad. *)

From Stdlib Require Import ZArith String Ascii List Bool Lia.
From stdpp Require Import base tactics option list gmap strings fin_maps fin_sets countable pretty.

Set Warnings "-clear-no-such-hyp".

Local Open Scope string_scope.
Local Open Scope list_scope.
Local Open Scope Z_scope.

(** ** Go errors *)

Module GoError.

(** [errors.New] values are the sentinels, [Opaque] stands for an error
    built elsewhere (by the kernel, the ELF parser, ...), and [Wrapf] is
    [fmt.Errorf("<msg>: %w", inner)]. *)
Inductive error : Type :=
  | ErrSelfExcluded
  | ErrInternalDDogProcessRejected
  | ErrPathIsAlreadyRegistered
  | ErrNoSymbols
  | ErrGoTLSNotEnabled
  | ErrNotFound
  | Opaque (msg : string)
  | Wrapf (msg : string) (inner : error).

#[global] Instance error_eq_dec : EqDecision error.
Proof. solve_decision. Defined.

(** [errors.Is(err, target)] for a non-nil [err]: walk the [Unwrap] chain. *)
Fixpoint Is (err target : error) : bool :=
    if decide (err = target) then true
    else match err with
         | Wrapf _ inner => Is inner target
         | _ => false
         end.

(** [errors.Is] on a possibly-nil error ([None] is Go's [nil]). *)
Definition IsOpt (err : option error) (target : error) : bool :=
    match err with
    | None => false
    | Some e => Is e target
    end.

End GoError.
Export GoError.

(** ** Fixed-width integers *)

Definition uint32 (z : Z) : Z := z mod 2 ^ 32.
Definition uint64 (z : Z) : Z := z mod 2 ^ 64.

(** ** Binary identities and lookup-table keys *)

(** [utils.PathIdentifier]: device number and inode of a file. *)
Record PathIdentifier : Type := mkPathIdentifier { Dev : Z; Inode : Z }.

#[global] Instance PathIdentifier_eq_dec : EqDecision PathIdentifier.
Proof. solve_decision. Defined.

#[global] Instance PathIdentifier_countable : Countable PathIdentifier.
Proof.
  refine (inj_countable' (fun p => (Dev p, Inode p))
                         (fun t => mkPathIdentifier t.1 t.2) _).
  by intros [].
Defined.

(** [utils.FilePath] *)
Record FilePath : Type := mkFilePath { HostPath : string; ID : PathIdentifier; PID : Z }.

(** [gotls.TlsBinaryId], the key type of the [offsets_data] eBPF map. *)
Record TlsBinaryId : Type := mkTlsBinaryId { Id_major : Z; Id_minor : Z; Ino : Z }.

#[global] Instance TlsBinaryId_eq_dec : EqDecision TlsBinaryId.
Proof. solve_decision. Defined.

#[global] Instance TlsBinaryId_countable : Countable TlsBinaryId.
Proof.
  refine (inj_countable' (fun k => (Id_major k, Id_minor k, Ino k))
                         (fun t => mkTlsBinaryId t.1.1 t.1.2 t.2) _).
  by intros [].
Defined.

(** [unix.Major] and [unix.Minor] of golang.org/x/sys/unix (Linux encoding of
    [dev_t]); the argument is a [uint64], the result a [uint32]. *)
Definition unix_Major (dev : Z) : Z :=
  let major := uint32 (Z.shiftr (Z.land dev 0x00000000000fff00) 8) in
  Z.lor major (uint32 (Z.shiftr (Z.land dev 0xfffff00000000000) 32)).

Definition unix_Minor (dev : Z) : Z :=
  let minor := uint32 (Z.shiftr (Z.land dev 0x00000000000000ff) 0) in
  Z.lor minor (uint32 (Z.shiftr (Z.land dev 0x00000ffffff00000) 12)).

(** The key literal of [addInspectionResultToMap]. *)
Definition addInspectionResult_key (binID : PathIdentifier) : TlsBinaryId :=
  {| Id_major := unix_Major (Dev binID);
     Id_minor := unix_Minor (Dev binID);
     Ino := Inode binID |}.

(** The key literal of [removeInspectionResultFromMap]. *)
Definition removeInspectionResult_key (binID : PathIdentifier) : TlsBinaryId :=
  {| Id_major := unix_Major (Dev binID);
     Id_minor := unix_Minor (Dev binID);
     Ino := Inode binID |}.

(** ** Regular expressions ([regexp.MustCompile], [MatchString])

    Only the constructs of [internalProcessRegex] are needed: literals,
    [.] (any character but a newline), [*], concatenation and alternation.
    All literals of the pattern are ASCII, so matching byte by byte agrees
    with Go's matching over UTF-8 code points. *)

Module Regexp.

Inductive regex : Type :=
  | Fail_
  | Eps
  | Chr (c : ascii)
  | Dot          (* [.] without the [s] flag: anything but line feed *)
  | AnyByte      (* used only for the unanchored search *)
  | Cat (r1 r2 : regex)
  | Alt (r1 r2 : regex)
  | Star (r : regex).

Fixpoint lit (s : string) : regex :=
    match s with
    | EmptyString => Eps
    | String c EmptyString => Chr c
    | String c s' => Cat (Chr c) (lit s')
    end.

Fixpoint nullable (r : regex) : bool :=
    match r with
    | Fail_ | Chr _ | Dot | AnyByte => false
    | Eps | Star _ => true
    | Cat r1 r2 => nullable r1 && nullable r2
    | Alt r1 r2 => nullable r1 || nullable r2
    end.

Definition cat (r1 r2 : regex) : regex :=
    match r1, r2 with
    | Fail_, _ | _, Fail_ => Fail_
    | Eps, r | r, Eps => r
    | _, _ => Cat r1 r2
    end.

Definition alt (r1 r2 : regex) : regex :=
    match r1, r2 with
    | Fail_, r | r, Fail_ => r
    | _, _ => Alt r1 r2
    end.

Definition line_feed : ascii := ascii_of_nat 10.

(** Brzozowski derivative of [r] by the character [c]. *)
Fixpoint deriv (c : ascii) (r : regex) : regex :=
    match r with
    | Fail_ | Eps => Fail_
    | Chr c' => if Ascii.eqb c c' then Eps else Fail_
    | Dot => if Ascii.eqb c line_feed then Fail_ else Eps
    | AnyByte => Eps
    | Cat r1 r2 =>
        if nullable r1 then alt (cat (deriv c r1) r2) (deriv c r2)
        else cat (deriv c r1) r2
    | Alt r1 r2 => alt (deriv c r1) (deriv c r2)
    | Star r1 => cat (deriv c r1) (Star r1)
    end.

(** Anchored match of the whole string. *)
Fixpoint full_match (r : regex) (s : string) : bool :=
    match s with
    | EmptyString => nullable r
    | String c s' => full_match (deriv c r) s'
    end.

(** [MatchString] of a compiled pattern: it matches some substring. *)
Definition MatchString (r : regex) (s : string) : bool :=
    full_match (Cat (Star AnyByte) (Cat r (Star AnyByte))) s.

End Regexp.

(** [internalProcessRegex =
     regexp.MustCompile("datadog-agent/.*/((process|security|trace)-agent|system-probe|agent)")] *)
Definition internalProcessRegex : Regexp.regex :=
  let lit := Regexp.lit in
  Regexp.Cat (lit "datadog-agent/")
    (Regexp.Cat (Regexp.Star Regexp.Dot)
       (Regexp.Cat (lit "/")
          (Regexp.Alt
             (Regexp.Alt
                (Regexp.Cat
                   (Regexp.Alt (Regexp.Alt (lit "process") (lit "security")) (lit "trace"))
                   (lit "-agent"))
                (lit "system-probe"))
             (lit "agent")))).

Example internalProcessRegex_system_probe :
  Regexp.MatchString internalProcessRegex "/opt/datadog-agent/embedded/bin/system-probe" = true.
Proof. vm_compute. reflexivity. Qed.

Example internalProcessRegex_trace_agent :
  Regexp.MatchString internalProcessRegex "/opt/datadog-agent/embedded/bin/trace-agent" = true.
Proof. vm_compute. reflexivity. Qed.

Example internalProcessRegex_other_binary :
  Regexp.MatchString internalProcessRegex "/usr/local/bin/server" = false.
Proof. vm_compute. reflexivity. Qed.

Example internalProcessRegex_needs_subdirectory :
  Regexp.MatchString internalProcessRegex "/opt/datadog-agent/agent" = false.
Proof. vm_compute. reflexivity. Qed.

(** ** Data exchanged with the eBPF manager and the binary inspector *)

(** [manager.ProbeIdentificationPair] *)
Record ProbeIdentificationPair : Type :=
  mkProbeID { EBPFFuncName : string; UID : string }.

#[global] Instance ProbeIdentificationPair_eq_dec : EqDecision ProbeIdentificationPair.
Proof. solve_decision. Defined.

(** [manager.Probe], with the fields the attacher sets. *)
Record Probe : Type :=
  mkProbe { ProbeID : ProbeIdentificationPair; BinaryPath : string; UprobeOffset : Z }.

Record uprobesInfo : Type := mkUprobesInfo { functionInfo : string; returnInfo : string }.

(** [bininspect.FunctionMetadata] and [bininspect.Result]; the other fields
    of [Result] are read by [inspectionResultToProbeData] only. *)
Record FunctionMetadata : Type :=
  mkFunctionMetadata { EntryLocation : Z; ReturnLocations : list Z }.

Record Result : Type := mkResult { Functions : gmap string FunctionMetadata }.

(** [bininspect.FunctionConfiguration]; [ParamLookupFunction] is used by the
    inspector only. *)
Record FunctionConfiguration : Type :=
  mkFunctionConfiguration { IncludeReturnLocations : bool }.

(** Modelled from the spec: the value type of the lookup table
    ([gotls.TlsOffsetsData], a C struct whose declaration is not part of the
    sources) is the opaque "analysisBlob" of the [Put(identity, analysisBlob)]
    interface. *)
Definition TlsOffsetsData : Type := list Z.

Definition connReadProbe := "uprobe__crypto_tls_Conn_Read".
Definition connReadRetProbe := "uprobe__crypto_tls_Conn_Read__return".
Definition connWriteProbe := "uprobe__crypto_tls_Conn_Write".
Definition connWriteRetProbe := "uprobe__crypto_tls_Conn_Write__return".
Definition connCloseProbe := "uprobe__crypto_tls_Conn_Close".

(** Result of a Go function returning [(T, error)]. *)
Inductive res (A : Type) : Type :=
| Ok (a : A)
| Err (e : error).
Arguments Ok {A} a.
Arguments Err {A} e.

(** [*os.File] and [*safeelf.File] handles. *)
Record File : Type := mkFile { file_name : string }.
Record ElfFile : Type := mkElfFile { elf_file : File }.

(** ** The collaborators of the attacher

    Everything the attacher calls and that lives outside of the file: the
    operating system, the ELF inspector, the eBPF manager and map, the
    helpers of the package whose sources are not at hand, and the order in
    which Go's [range] visits a map. *)
Record Env : Type := mkEnv {
  (* constants of package bininspect *)
  ReadGoTLSFunc : string;
  WriteGoTLSFunc : string;
  CloseGoTLSFunc : string;
  (* operating system *)
  os_Getpid : Z;
  os_Readlink : string -> res string;
  os_Open : string -> res File;
  filepath_Join : list string -> string;
  elapsed_Milliseconds : Z;
  (* [kernel.WithAllProcs]: the PIDs found under procRoot, in visiting order *)
  WithAllProcs_pids : string -> list Z;
  (* ELF parsing and inspection *)
  safeelf_NewFile : File -> res ElfFile;
  InspectNewProcessBinary : ElfFile -> res Result;
  (* helpers of the package (ebpf_gotls_helpers.go) *)
  inspectionResultToProbeData : Result -> res TlsOffsetsData;
  getUID : PathIdentifier -> string;
  makeReturnUID : string -> Z -> string;
  (* eBPF manager: the error, if any, of adding or detaching a hook given
     the probes currently attached *)
  AddHook_err : list ProbeIdentificationPair -> Probe -> option error;
  DetachHook_err : list ProbeIdentificationPair -> ProbeIdentificationPair -> option error;
  (* eBPF map: the error, if any, of Put given the current content *)
  Put_err : gmap TlsBinaryId TlsOffsetsData -> TlsBinaryId -> option error;
  (* resolution of the path of a binary, as seen by a PID, to its identity *)
  resolve_path : string -> Z -> res FilePath;
  (* visiting order of [range functionToProbes] and of a range over a PID set *)
  range_functionToProbes : list (string * uprobesInfo);
  range_pids : gset Z -> list Z
}.

(** ** State touched by the registration callbacks

    The eBPF manager is the list of the probes attached through it, the eBPF
    map is a finite map, and each [probeList] variable of [AttachPID], which
    the two callbacks of one call share, is a cell of [heap].  The [trace]
    records the calls to the manager and to the map, and the error lines
    logged.  Modelled from the spec: a telemetry counter ([libtelemetry.Counter],
    not in the sources) is an integer that [Add] increments. *)

Inductive Event : Type :=
| EvAddHook (p : Probe) (err : option error)
| EvDetachHook (id : ProbeIdentificationPair) (err : option error)
| EvMapPut (key : TlsBinaryId) (err : option error)
| EvMapDelete (key : TlsBinaryId) (err : option error)
| EvLogErrorf (format : string).

Record State : Type := mkState {
  hooks : list ProbeIdentificationPair;             (* probes attached through the manager *)
  offsetsDataMap : gmap TlsBinaryId TlsOffsetsData; (* the [offsets_data] eBPF map *)
  binAnalysisMetric : Z;
  binNoSymbolsMetric : Z;
  heap : list (list ProbeIdentificationPair);       (* the [probeList] variables of AttachPID *)
  trace : list Event
}.

Definition set_hooks (h : list ProbeIdentificationPair) (s : State) : State :=
  mkState h (offsetsDataMap s) (binAnalysisMetric s) (binNoSymbolsMetric s) (heap s) (trace s).
Definition set_offsetsDataMap (m : gmap TlsBinaryId TlsOffsetsData) (s : State) : State :=
  mkState (hooks s) m (binAnalysisMetric s) (binNoSymbolsMetric s) (heap s) (trace s).
Definition set_binAnalysisMetric (c : Z) (s : State) : State :=
  mkState (hooks s) (offsetsDataMap s) c (binNoSymbolsMetric s) (heap s) (trace s).
Definition set_binNoSymbolsMetric (c : Z) (s : State) : State :=
  mkState (hooks s) (offsetsDataMap s) (binAnalysisMetric s) c (heap s) (trace s).
Definition set_heap (h : list (list ProbeIdentificationPair)) (s : State) : State :=
  mkState (hooks s) (offsetsDataMap s) (binAnalysisMetric s) (binNoSymbolsMetric s) h (trace s).
Definition emit (e : Event) (s : State) : State :=
  mkState (hooks s) (offsetsDataMap s) (binAnalysisMetric s) (binNoSymbolsMetric s) (heap s)
          (trace s ++ [e]).

(** A small state monad for the code of the callbacks. *)
Definition M (A : Type) : Type := State -> A * State.

Definition ret {A} (a : A) : M A := fun s => (a, s).
Definition bind {A B} (c : M A) (k : A -> M B) : M B :=
  fun s => let (a, s') := c s in k a s'.
Definition modify (f : State -> State) : M unit := fun s => (tt, f s).
Definition gets {A} (f : State -> A) : M A := fun s => (f s, s).

Notation "'do' x <- c ; k" := (bind c (fun x => k))
  (at level 10, x pattern, c at level 99, k at level 200).
Notation "c ;; k" := (bind c (fun _ => k))
  (at level 100, k at level 200, right associativity).

(** ** The registration and unregistration callbacks *)

Section Callbacks.

Context (X : Env).

(** [var functionToProbes = map[string]uprobesInfo{...}], as written. *)
Definition functionToProbes : list (string * uprobesInfo) :=
    [ (ReadGoTLSFunc X, mkUprobesInfo connReadProbe connReadRetProbe);
      (WriteGoTLSFunc X, mkUprobesInfo connWriteProbe connWriteRetProbe);
      (CloseGoTLSFunc X, mkUprobesInfo connCloseProbe "") ].

(** [var functionsConfig = map[string]bininspect.FunctionConfiguration{...}] *)
Definition functionsConfig : gmap string FunctionConfiguration :=
    list_to_map
      [ (WriteGoTLSFunc X, mkFunctionConfiguration true);
        (ReadGoTLSFunc X, mkFunctionConfiguration true);
        (CloseGoTLSFunc X, mkFunctionConfiguration false) ].

(** Indexing a Go map yields the zero value for an absent key. *)
Definition functionsConfig_at (function : string) : FunctionConfiguration :=
    default (mkFunctionConfiguration false) (functionsConfig !! function).

Definition Functions_at (result : Result) (function : string) : FunctionMetadata :=
    default (mkFunctionMetadata 0 []) (Functions result !! function).

  (** *** The eBPF manager and the eBPF map *)

(** [mgr.AddHook("", newProbe)] *)
Definition AddHook (newProbe : Probe) : M (option error) := fun s =>
    match AddHook_err X (hooks s) newProbe with
    | Some err => (Some err, emit (EvAddHook newProbe (Some err)) s)
    | None =>
        (None, emit (EvAddHook newProbe None) (set_hooks (hooks s ++ [ProbeID newProbe]) s))
    end.

(** [mgr.DetachHook(probeID)] *)
Definition DetachHook (probeID : ProbeIdentificationPair) : M (option error) := fun s =>
    match DetachHook_err X (hooks s) probeID with
    | Some err => (Some err, emit (EvDetachHook probeID (Some err)) s)
    | None =>
        (None, emit (EvDetachHook probeID None)
                 (set_hooks (filter (fun h => h <> probeID) (hooks s)) s))
    end.

(** [offsetsDataMap.Put(key, value)] *)
Definition Map_Put (key : TlsBinaryId) (value : TlsOffsetsData) : M (option error) := fun s =>
    match Put_err X (offsetsDataMap s) key with
    | Some err => (Some err, emit (EvMapPut key (Some err)) s)
    | None =>
        (None, emit (EvMapPut key None)
                 (set_offsetsDataMap (<[key := value]> (offsetsDataMap s)) s))
    end.

(** [offsetsDataMap.Delete(key)]: the kernel reports a missing key. *)
Definition Map_Delete (key : TlsBinaryId) : M (option error) := fun s =>
    match offsetsDataMap s !! key with
    | None =>
        let err := Opaque "key does not exist" in
        (Some err, emit (EvMapDelete key (Some err)) s)
    | Some _ =>
        (None, emit (EvMapDelete key None)
                 (set_offsetsDataMap (delete key (offsetsDataMap s)) s))
    end.

Definition log_Errorf (format : string) : M unit := modify (emit (EvLogErrorf format)).

(** *** [addInspectionResultToMap] *)
Definition addInspectionResultToMap (binID : PathIdentifier) (result : Result)
    : M (option error) :=
    match inspectionResultToProbeData X result with
    | Err err => ret (Some (Wrapf "error while parsing inspection result: %w" err))
    | Ok offsetsData =>
        let key := addInspectionResult_key binID in
        do r <- Map_Put key offsetsData;
        match r with
        | Some err =>
            ret (Some (Wrapf "could not write binary inspection result to map for binID %v: %w" err))
        | None => ret None
        end
    end.

(** *** [removeInspectionResultFromMap] *)
Definition removeInspectionResultFromMap (binID : PathIdentifier) : M unit :=
    let key := removeInspectionResult_key binID in
    do r <- Map_Delete key;
    match r with
    | Some err => log_Errorf "could not remove inspection result from map for ino %v: %s"
    | None => ret tt
    end.

  (** *** [attachHooks] *)

(** The inner loop [for i, offset := range result.Functions[function].ReturnLocations].
    The result is Go's pair: on error the slice is [nil].  The name mapping
    that [ddebpf.AddProgramNameMapping] records for telemetry is left out. *)
Fixpoint attachReturnHooks (uprobes : uprobesInfo) (binPath uid : string)
      (i : Z) (offsets : list Z) (probeIDs : list ProbeIdentificationPair)
    : M (list ProbeIdentificationPair * option error) :=
    match offsets with
    | [] => ret (probeIDs, None)
    | offset :: rest =>
        let returnProbeID := mkProbeID (returnInfo uprobes) (makeReturnUID X uid i) in
        let newProbe := mkProbe returnProbeID binPath offset in
        do r <- AddHook newProbe;
        match r with
        | Some err =>
            ret ([], Some (Wrapf "could not add return hook to function %q in offset %d due to: %w" err))
        | None =>
            attachReturnHooks uprobes binPath uid (i + 1) rest (probeIDs ++ [returnProbeID])
        end
    end.

(** One iteration of [for function, uprobes := range functionToProbes]. *)
Definition attachHooks_function (result : Result) (binPath uid : string)
      (function : string) (uprobes : uprobesInfo) (probeIDs : list ProbeIdentificationPair)
    : M (list ProbeIdentificationPair * option error) :=
    do r1 <-
      (if IncludeReturnLocations (functionsConfig_at function) then
         if decide (returnInfo uprobes = "") then
           ret ([], Some (Opaque "function %q configured to include return locations but no return uprobes found in config"))
         else
           attachReturnHooks uprobes binPath uid 0
             (ReturnLocations (Functions_at result function)) probeIDs
       else ret (probeIDs, None));
    match r1 with
    | (_, Some err) => ret ([], Some err)
    | (probeIDs, None) =>
        if decide (functionInfo uprobes <> "") then
          let probeID := mkProbeID (functionInfo uprobes) uid in
          let newProbe :=
            mkProbe probeID binPath (EntryLocation (Functions_at result function)) in
          do r <- AddHook newProbe;
          match r with
          | Some err =>
              ret ([], Some (Wrapf "could not add hook for %q in offset %d due to: %w" err))
          | None => ret (probeIDs ++ [probeID], None)
          end
        else ret (probeIDs, None)
    end.

Fixpoint attachHooks_range (result : Result) (binPath uid : string)
      (targets : list (string * uprobesInfo)) (probeIDs : list ProbeIdentificationPair)
    : M (list ProbeIdentificationPair * option error) :=
    match targets with
    | [] => ret (probeIDs, None)
    | (function, uprobes) :: rest =>
        do r <- attachHooks_function result binPath uid function uprobes probeIDs;
        match r with
        | (_, Some err) => ret ([], Some err)
        | (probeIDs, None) => attachHooks_range result binPath uid rest probeIDs
        end
    end.

Definition attachHooks (result : Result) (binPath : string) (binID : PathIdentifier)
    : M (list ProbeIdentificationPair * option error) :=
    let uid := getUID X binID in
    attachHooks_range result binPath uid (range_functionToProbes X) [].

(** *** [registerCBCreator]

    [probeIDs] is the address of the [probeList] variable of the caller.
    Closing the file and the debug log line have no effect on the state. *)
Definition registerCBCreator (probeIDs : nat) (filePath : FilePath) : M (option error) :=
    match os_Open X (HostPath filePath) with
    | Err err => ret (Some (Wrapf "could not open file %s, %w" err))
    | Ok f =>
        match safeelf_NewFile X f with
        | Err err => ret (Some (Wrapf "file %s could not be parsed as an ELF file: %w" err))
        | Ok elfFile =>
            match InspectNewProcessBinary X elfFile with
            | Err err =>
                (if Is err ErrNoSymbols
                 then modify (fun s => set_binNoSymbolsMetric (binNoSymbolsMetric s + 1) s)
                 else ret tt);;
                ret (Some (Wrapf "error extracting inspection data from %s: %w" err))
            | Ok inspectionResult =>
                do r <- addInspectionResultToMap (ID filePath) inspectionResult;
                match r with
                | Some err => ret (Some (Wrapf "failed adding inspection rules: %w" err))
                | None =>
                    do r <- attachHooks inspectionResult (HostPath filePath) (ID filePath);
                    match r with
                    | (_, Some err) =>
                        removeInspectionResultFromMap (ID filePath);;
                        ret (Some (Wrapf "error while attaching hooks to %s: %w" err))
                    | (pIDs, None) =>
                        modify (fun s => set_heap (<[probeIDs := pIDs]> (heap s)) s);;
                        modify (fun s =>
                          set_binAnalysisMetric
                            (binAnalysisMetric s + elapsed_Milliseconds X) s);;
                        ret None
                    end
                end
            end
        end
    end.

(** *** [unregisterCBCreator] *)

Fixpoint detachHooks (probeIDs : list ProbeIdentificationPair) : M unit :=
    match probeIDs with
    | [] => ret tt
    | probeID :: rest =>
        do r <- DetachHook probeID;
        match r with
        | Some err => log_Errorf "failed detaching hook %s: %s"
        | None => ret tt
        end;;
        detachHooks rest
    end.

Definition unregisterCBCreator (probeIDs : nat) (path : FilePath) : M (option error) :=
    do ids <- gets (fun s => default [] (heap s !! probeIDs));
    if decide (length ids = 0%nat) then ret None
    else
      removeInspectionResultFromMap (ID path);;
      detachHooks ids;;
      ret None.

End Callbacks.

(** ** The binary identity registry ([utils.FileRegistry])

    The sources of the registry are not at hand; its four operations are
    modelled after the contract of the specification (section 4.1). *)

Definition Callback : Type := FilePath -> M (option error).

(** A registration entry: the interested PIDs, the path given at the first
    registration, and the callback to run when the last PID leaves. *)
Record Entry : Type := mkEntry {
  pids : gset Z;
  entry_path : FilePath;
  onLastUnregister : Callback
}.

(** What the program calls, in order: entry points of the attacher, entry
    points of the registry, and the callbacks the registry invokes (with the
    error they returned). *)
Inductive Call : Type :=
| CallAttachPID (pid : Z)
| CallDetachPID (pid : Z)
| CallRegister (namespacedPath : string) (pid : Z)
| CallUnregister (pid : Z)
| CbFirstRegister (id : PathIdentifier) (err : option error)
| CbLastUnregister (id : PathIdentifier) (err : option error)
| CbAlreadyTracked (id : PathIdentifier).

Record World : Type := mkWorld {
  registry : gmap PathIdentifier Entry;
  calls : list Call;
  state : State
}.

Definition record_call (c : Call) (w : World) : World :=
  mkWorld (registry w) (calls w ++ [c]) (state w).
Definition set_registry (r : gmap PathIdentifier Entry) (w : World) : World :=
  mkWorld r (calls w) (state w).
Definition set_state (s : State) (w : World) : World :=
  mkWorld (registry w) (calls w) s.

(** The PIDs interested in identity [id] (empty when there is no entry). *)
Definition interested (w : World) (id : PathIdentifier) : gset Z :=
  match registry w !! id with
  | Some e => pids e
  | None => ∅
  end.

Section Registry.

Context (X : Env).

(** Modelled from the spec: [Register] once the path is resolved.  "If no
    entry exists for that identity, creates one, invokes onFirstRegister;
    on failure, the entry is not created and the error is returned.  If an
    entry already exists and pid is new to its set, adds pid and invokes
    onAlreadyTracked.  If pid is already a member, returns a duplicate
    condition." *)
Definition Register_resolved (path : FilePath) (pid : Z)
      (onFirstRegister onLast onAlreadyTracked : Callback) (w : World)
    : option error * World :=
    match registry w !! ID path with
    | None =>
        let (err, s) := onFirstRegister path (state w) in
        let w := record_call (CbFirstRegister (ID path) err) (set_state s w) in
        match err with
        | Some e => (Some e, w)
        | None =>
            (None, set_registry (<[ID path := mkEntry {[pid]} path onLast]> (registry w)) w)
        end
    | Some e =>
        if decide (pid ∈ pids e) then (Some ErrPathIsAlreadyRegistered, w)
        else
          let (_, s) := onAlreadyTracked path (state w) in
          let w := record_call (CbAlreadyTracked (ID path)) (set_state s w) in
          (None,
           set_registry
             (<[ID path := mkEntry ({[pid]} ∪ pids e) (entry_path e) (onLastUnregister e)]>
                (registry w)) w)
    end.

(** Modelled from the spec: [Register(path, pid, onFirstRegister,
    onLastUnregister, onAlreadyTracked) -> error] "resolves path to a
    BinaryIdentity" and proceeds as above. *)
Definition Register (namespacedPath : string) (pid : Z)
      (onFirstRegister onLast onAlreadyTracked : Callback) (w : World)
    : option error * World :=
    let w := record_call (CallRegister namespacedPath pid) w in
    match resolve_path X namespacedPath pid with
    | Err err => (Some err, w)
    | Ok path => Register_resolved path pid onFirstRegister onLast onAlreadyTracked w
    end.

(** Modelled from the spec: "looks up which identity (if any) owns pid". *)
Definition owner (r : gmap PathIdentifier Entry) (pid : Z)
    : option (PathIdentifier * Entry) :=
    head (filter (fun kv => pid ∈ pids kv.2) (map_to_list r)).

(** Modelled from the spec: [Unregister(pid) -> error].  "If none, returns
    a not-found condition.  Removes pid from the entry's set; if the set
    becomes empty, invokes onLastUnregister(path) and deletes the entry." *)
Definition Unregister (pid : Z) (w : World) : option error * World :=
    let w := record_call (CallUnregister pid) w in
    match owner (registry w) pid with
    | None => (Some ErrNotFound, w)
    | Some (id, e) =>
        let remaining := pids e ∖ {[pid]} in
        if decide (remaining = ∅) then
          let (err, s) := onLastUnregister e (entry_path e) (state w) in
          let w := record_call (CbLastUnregister id err) (set_state s w) in
          (None, set_registry (delete id (registry w)) w)
        else
          (None,
           set_registry
             (<[id := mkEntry remaining (entry_path e) (onLastUnregister e)]> (registry w)) w)
    end.

(** Modelled from the spec: [GetRegisteredProcesses() -> set of ProcessID],
    "snapshot of every PID currently tracked, across all identities". *)
Definition GetRegisteredProcesses (w : World) : gset Z :=
    ⋃ ((fun kv : PathIdentifier * Entry => pids kv.2) <$> map_to_list (registry w)).

(** Modelled from the spec: [Clear()] "forcibly unregisters every entry,
    invoking onLastUnregister for each". *)
Definition Clear_entry (w : World) (kv : PathIdentifier * Entry) : World :=
    let (err, s) := onLastUnregister kv.2 (entry_path kv.2) (state w) in
    record_call (CbLastUnregister kv.1 err) (set_state s w).

Definition Clear (w : World) : World :=
    set_registry ∅ (foldl Clear_entry w (map_to_list (registry w))).

(** Modelled from the spec: [utils.IgnoreCB], "onAlreadyTracked: no-op". *)
Definition IgnoreCB : Callback := fun _ => ret None.

End Registry.

(** ** The attacher ([goTLSProgram]) *)

(** The fields of [goTLSProgram] that are plain configuration; its manager,
    eBPF map, counters and registry are the [World]. *)
Record goTLSProgram : Type := mkGoTLSProgram {
  cfg_GoTLSExcludeSelf : bool;
  procRoot : string
}.

Section Attacher.

Context (X : Env).

(** [strconv.FormatUint(n, 10)] *)
Definition strconv_FormatUint10 (n : Z) : string := pretty (Z.to_N n).

(** [probeList := make([]manager.ProbeIdentificationPair, 0)]: a fresh
    variable, whose address the two callbacks capture. *)
Definition new_probeList (w : World) : nat * World :=
    (length (heap (state w)),
     set_state (set_heap (heap (state w) ++ [[]]) (state w)) w).

(** [goTLSProgram.AttachPID]; the debug log line of the internal-process
    branch is left out. *)
Definition AttachPID (p : goTLSProgram) (pid : Z) (w : World) : option error * World :=
    let w := record_call (CallAttachPID pid) w in
    if cfg_GoTLSExcludeSelf p && (pid =? uint32 (os_Getpid X)) then
      (Some ErrSelfExcluded, w)
    else
      let pidAsStr := strconv_FormatUint10 (uint64 pid) in
      let exePath := filepath_Join X [procRoot p; pidAsStr; "exe"] in
      match os_Readlink X exePath with
      | Err err => (Some err, w)
      | Ok binPath =>
          if Regexp.MatchString internalProcessRegex binPath then
            (Some ErrInternalDDogProcessRejected, w)
          else
            let (probeList, w) := new_probeList w in
            Register X binPath pid
              (registerCBCreator X probeList)
              (unregisterCBCreator X probeList)
              IgnoreCB w
      end.

(** [goTLSProgram.DetachPID] *)
Definition DetachPID (p : goTLSProgram) (pid : Z) (w : World) : option error * World :=
    let w := record_call (CallDetachPID pid) w in
    Unregister pid w.

Definition handleProcessExit (p : goTLSProgram) (pid : Z) (w : World) : World :=
    (DetachPID p pid w).2.

Definition handleProcessStart (p : goTLSProgram) (pid : Z) (w : World) : World :=
    (AttachPID p pid w).2.

(** [GoTLSAttachPID]; [instance] is [goTLSSpec.Instance]. *)
Definition GoTLSAttachPID (instance : option goTLSProgram) (pid : Z) (w : World)
    : option error * World :=
    match instance with
    | None => (Some ErrGoTLSNotEnabled, w)
    | Some p =>
        let (err, w) := AttachPID p pid w in
        if IsOpt err ErrPathIsAlreadyRegistered then (None, w)
        else (err, w)
    end.

(** [GoTLSDetachPID] *)
Definition GoTLSDetachPID (instance : option goTLSProgram) (pid : Z) (w : World)
    : option error * World :=
    match instance with
    | None => (Some ErrGoTLSNotEnabled, w)
    | Some p => DetachPID p pid w
    end.

  (** *** [sync] *)

(** The function passed to [kernel.WithAllProcs]; [pid] is a Go [int]. *)
Definition sync_visit (p : goTLSProgram) (acc : gset Z * World) (pid : Z)
    : gset Z * World :=
    let (deletionCandidates, w) := acc in
    if decide (uint32 pid ∈ deletionCandidates) then
      (deletionCandidates ∖ {[uint32 pid]}, w)
    else
      (deletionCandidates, (AttachPID p (uint32 pid) w).2).

Definition sync (p : goTLSProgram) (w : World) : World :=
    let deletionCandidates := GetRegisteredProcesses w in
    let (deletionCandidates, w) :=
      foldl (sync_visit p) (deletionCandidates, w) (WithAllProcs_pids X (procRoot p)) in
    foldl (fun w pid => handleProcessExit p pid w) w (range_pids X deletionCandidates).

End Attacher.

(** ** A concrete host, used to run the code on explicit inputs

    Three Go binaries ([server], [stripped] without symbols, and [broken],
    whose [Write] entry point lies at an offset the kernel refuses), the
    agent's own [system-probe], and a few processes under [/proc]. *)

Module Host.

Definition server_id : PathIdentifier := mkPathIdentifier 0x803 1001.
Definition stripped_id : PathIdentifier := mkPathIdentifier 0x803 1002.
Definition broken_id : PathIdentifier := mkPathIdentifier 0x803 1003.

Definition read_fn := "crypto/tls.(*Conn).Read".
Definition write_fn := "crypto/tls.(*Conn).Write".
Definition close_fn := "crypto/tls.(*Conn).Close".

Definition readlink (exePath : string) : res string :=
    if decide (exePath = "/proc/100/exe") then Ok "/usr/bin/server"
    else if decide (exePath = "/proc/101/exe") then Ok "/usr/bin/server"
    else if decide (exePath = "/proc/200/exe") then Ok "/opt/datadog-agent/embedded/bin/system-probe"
    else if decide (exePath = "/proc/300/exe") then Ok "/usr/bin/stripped"
    else if decide (exePath = "/proc/400/exe") then Ok "/usr/bin/broken"
    else if decide (exePath = "/proc/4242/exe") then Ok "/usr/bin/server"
    else Err (Opaque "readlink: no such file or directory").

Definition resolve (namespacedPath : string) (pid : Z) : res FilePath :=
    if decide (namespacedPath = "/usr/bin/server")
    then Ok (mkFilePath "/usr/bin/server" server_id pid)
    else if decide (namespacedPath = "/usr/bin/stripped")
    then Ok (mkFilePath "/usr/bin/stripped" stripped_id pid)
    else if decide (namespacedPath = "/usr/bin/broken")
    then Ok (mkFilePath "/usr/bin/broken" broken_id pid)
    else Err (Opaque "stat: no such file or directory").

Definition functions_of (entries : list (string * FunctionMetadata)) : Result :=
    mkResult (list_to_map entries).

Definition inspect (elf : ElfFile) : res Result :=
    let name := file_name (elf_file elf) in
    if decide (name = "/usr/bin/server") then
      Ok (functions_of
            [ (read_fn, mkFunctionMetadata 0x1000 [0x1040; 0x1080]);
              (write_fn, mkFunctionMetadata 0x2000 [0x2040]);
              (close_fn, mkFunctionMetadata 0x3000 []) ])
    else if decide (name = "/usr/bin/broken") then
      Ok (functions_of
            [ (read_fn, mkFunctionMetadata 0x1000 [0x1040]);
              (write_fn, mkFunctionMetadata 0x7fffffff [0x2040]);
              (close_fn, mkFunctionMetadata 0x3000 []) ])
    else Err (Wrapf "failed retrieving symbols: %w" ErrNoSymbols).

(** The manager refuses a probe whose identification pair is in use, and
    the kernel refuses an offset beyond the text of the binary. *)
Definition add_hook_err (attached : list ProbeIdentificationPair) (p : Probe)
    : option error :=
    if decide (ProbeID p ∈ attached) then Some (Opaque "identification pair already in use")
    else if 0x100000 <=? UprobeOffset p then Some (Opaque "invalid argument")
    else None.

Definition detach_hook_err (attached : list ProbeIdentificationPair)
      (id : ProbeIdentificationPair) : option error :=
    if decide (id ∈ attached) then None else Some (Opaque "unknown probe").

Definition uid_of (binID : PathIdentifier) : string :=
    "g" +:+ pretty (Z.to_N (Inode binID)).

Definition env : Env := {|
    ReadGoTLSFunc := read_fn;
    WriteGoTLSFunc := write_fn;
    CloseGoTLSFunc := close_fn;
    os_Getpid := 4242;
    os_Readlink := readlink;
    os_Open := fun name => Ok (mkFile name);
    filepath_Join := String.concat "/";
    elapsed_Milliseconds := 7;
    WithAllProcs_pids := fun _ => [100; 200; 300];
    safeelf_NewFile := fun f => Ok (mkElfFile f);
    InspectNewProcessBinary := inspect;
    inspectionResultToProbeData := fun _ => Ok [1; 2; 3];
    getUID := uid_of;
    makeReturnUID := fun uid i => uid +:+ "_" +:+ pretty (Z.to_N i);
    AddHook_err := add_hook_err;
    DetachHook_err := detach_hook_err;
    Put_err := fun _ _ => None;
    resolve_path := resolve;
    range_functionToProbes :=
      [ (read_fn, mkUprobesInfo connReadProbe connReadRetProbe);
        (write_fn, mkUprobesInfo connWriteProbe connWriteRetProbe);
        (close_fn, mkUprobesInfo connCloseProbe "") ];
    range_pids := elements
  |}.

Definition program : goTLSProgram := mkGoTLSProgram true "/proc".

Definition state0 : State := mkState [] ∅ 0 0 [] [].
Definition world0 : World := mkWorld ∅ [] state0.

End Host.

(** ** Well-formedness of the collaborators

    Go guarantees that the keys of a map literal are distinct and that
    [range] visits every entry of a map exactly once, in some order. *)
Definition go_semantics (X : Env) : Prop :=
  NoDup [ReadGoTLSFunc X; WriteGoTLSFunc X; CloseGoTLSFunc X]
  /\ Permutation (range_functionToProbes X) (functionToProbes X)
  /\ (forall s : gset Z, Permutation (range_pids X s) (elements s)).

(** The events appended to the trace between two states. *)
Definition new_events (s s' : State) : list Event :=
  drop (length (trace s)) (trace s').

(** The calls appended to the log between two worlds. *)
Definition new_calls (w w' : World) : list Call :=
  drop (length (calls w)) (calls w').

Definition is_Register_call (c : Call) : bool :=
  match c with CallRegister _ _ => true | _ => false end.

(** ** Vocabulary of the statements about [AttachPID] *)

Section AttachVocabulary.

Context (X : Env).

(** The self-exclusion check of [AttachPID]. *)
Definition self_excluded (p : goTLSProgram) (pid : Z) : bool :=
    cfg_GoTLSExcludeSelf p && (pid =? uint32 (os_Getpid X)).

(** The path whose link [AttachPID] reads. *)
Definition exe_path (p : goTLSProgram) (pid : Z) : string :=
    filepath_Join X [procRoot p; strconv_FormatUint10 (uint64 pid); "exe"].

(** The executable of the process resolves to an internal agent binary. *)
Definition internal_process (p : goTLSProgram) (pid : Z) : bool :=
    match os_Readlink X (exe_path p pid) with
    | Ok binPath => Regexp.MatchString internalProcessRegex binPath
    | Err _ => false
    end.

End AttachVocabulary.

(** The probes on which [DetachHook] was called, in order. *)
Definition detach_attempts (evs : list Event) : list ProbeIdentificationPair :=
  omap (fun e => match e with EvDetachHook id _ => Some id | _ => None end) evs.

(** The probes on which [AddHook] succeeded, in order. *)
Definition added_hooks (evs : list Event) : list ProbeIdentificationPair :=
  omap (fun e => match e with EvAddHook p None => Some (ProbeID p) | _ => None end) evs.

Definition is_detach_or_log (e : Event) : bool :=
  match e with EvDetachHook _ _ | EvLogErrorf _ => true | _ => false end.

(** What adding hooks may change between two states: the trace grows by
    [evs], the attached probes grow by those [evs] report as added, and the
    lookup table, the captured variables and the counters stay as they are. *)
Definition attach_frame (s s' : State) (evs : list Event) : Prop :=
  trace s' = trace s ++ evs
  /\ hooks s' = hooks s ++ added_hooks evs
  /\ offsetsDataMap s' = offsetsDataMap s
  /\ heap s' = heap s
  /\ binNoSymbolsMetric s' = binNoSymbolsMetric s
  /\ binAnalysisMetric s' = binAnalysisMetric s.

(** What detaching hooks may change: the trace grows by [evs], which holds
    only [DetachHook] calls and log lines, and attached probes only go away. *)
Definition detach_frame (s s' : State) (evs : list Event) : Prop :=
  trace s' = trace s ++ evs
  /\ forallb is_detach_or_log evs = true
  /\ (forall id, id ∈ hooks s' -> id ∈ hooks s)
  /\ offsetsDataMap s' = offsetsDataMap s
  /\ heap s' = heap s
  /\ binNoSymbolsMetric s' = binNoSymbolsMetric s
  /\ binAnalysisMetric s' = binAnalysisMetric s.

(** ** Vocabulary of the statements about [sync] *)

(** The attacher's entry points seen in a call log. *)
Inductive Action : Type :=
| Attach (pid : Z)
| Detach (pid : Z).

#[global] Instance Action_eq_dec : EqDecision Action.
Proof. solve_decision. Defined.

Definition actions (l : list Call) : list Action :=
  omap (fun c => match c with
                 | CallAttachPID pid => Some (Attach pid)
                 | CallDetachPID pid => Some (Detach pid)
                 | _ => None
                 end) l.

(** The specification's "mark" pass, in its own words: "for each live PID:
    if present in candidates, remove it from candidates (still alive, no
    action); if absent, call AttachPID".  The result lists the PIDs on which
    AttachPID is called, in order. *)
Fixpoint newly_observed (candidates : gset Z) (live : list Z) : list Z :=
  match live with
  | [] => []
  | pid :: rest =>
      if decide (pid ∈ candidates) then newly_observed (candidates ∖ {[pid]}) rest
      else pid :: newly_observed candidates rest
  end.

(** The log of [w'] extends the log of [w] by calls whose attach and detach
    entries are [acts]. *)
Definition calls_extend (w w' : World) (acts : list Action) : Prop :=
  exists l, calls w' = calls w ++ l /\ actions l = acts.

(** ** Vocabulary of the statements about the registry *)

(** A call to the registry. *)
Inductive Op : Type :=
| OpRegister (namespacedPath : string) (pid : Z)
             (onFirstRegister onLast onAlreadyTracked : Callback)
| OpUnregister (pid : Z).

Definition is_first_register (id : PathIdentifier) (c : Call) : bool :=
  match c with
  | CbFirstRegister id' _ => bool_decide (id' = id)
  | _ => false
  end.


Definition is_last_unregister (id : PathIdentifier) (c : Call) : bool :=
  match c with
  | CbLastUnregister id' _ => bool_decide (id' = id)
  | _ => false
  end.

(** Number of calls of a log that satisfy [f]. *)
Definition count (f : Call -> bool) (l : list Call) : nat :=
  length (List.filter f l).

(** The interested-PID set of [id] goes from empty to non-empty, or back. *)
Definition becomes_interested (id : PathIdentifier) (w w' : World) : bool :=
  bool_decide (interested w id = ∅) && negb (bool_decide (interested w' id = ∅)).

Definition becomes_idle (id : PathIdentifier) (w w' : World) : bool :=
  negb (bool_decide (interested w id = ∅)) && bool_decide (interested w' id = ∅).


Section RegistryRuns.

Context (X : Env).

Definition step (w : World) (op : Op) : World :=
  match op with
  | OpRegister namespacedPath pid onFirstRegister onLast onAlreadyTracked =>
      (Register X namespacedPath pid onFirstRegister onLast onAlreadyTracked w).2
  | OpUnregister pid => (Unregister pid w).2
  end.

Definition run (w : World) (ops : list Op) : World := foldl step w ops.

(** The worlds before and after each call of a run. *)
Fixpoint steps (w : World) (ops : list Op) : list (World * World) :=
  match ops with
  | [] => []
  | op :: rest => (w, step w op) :: steps (step w op) rest
  end.

(** Number of calls of a run at which [f] holds of the worlds around it. *)
Definition transitions (f : World -> World -> bool) (w : World) (ops : list Op) : nat :=
  length (List.filter (fun ww : World * World => f ww.1 ww.2) (steps w ops)).

End RegistryRuns.


(** ** Start and stop of the attacher ([PreStart], [Stop])

    [PreStart] subscribes the two handlers to the process monitor, adds one
    to the wait group and starts the goroutine of the reconciliation loop;
    [Stop] closes [p.done] and waits on the wait group.  The goroutines are
    interleaved one statement at a time: a [Label] names the statement that
    runs next, and [fire] runs it when it is enabled.  A tick of the ticker
    may be chosen by the [select] even when [p.done] is closed; the handlers
    of the monitor run one at a time, in any order ([Register] and
    [Unregister] are serialized by the registry); [p.registry.Log()] only
    logs. *)

Module Lifecycle.

(** Where the caller of [Stop] stands. *)
Inductive StopPc : Type :=
| NotCalled      (* before [close(p.done)] *)
| Waiting        (* in [p.wg.Wait()] *)
| Returned.

(** Where the goroutine of [PreStart] stands: in the [select] of its loop,
    or before one of the statements of its deferred function. *)
Inductive LoopPc : Type :=
| Selecting
| AtTickerStop       (* processSync.Stop() *)
| AtCleanupExec      (* cleanupExec() *)
| AtCleanupExit      (* cleanupExit() *)
| AtMonitorStop      (* procMonitor.Stop() *)
| AtRegistryClear    (* p.registry.Clear() *)
| AtWgDone           (* p.wg.Done() *)
| Exited.

(** A callback of the process monitor that has been handed a PID. *)
Inductive Job : Type :=
| JobStart (pid : Z)    (* handleProcessStart *)
| JobExit (pid : Z).    (* handleProcessExit *)

Inductive LifeEvent : Type :=
| CloseDone
| SyncPass
| TickerStop
| UnsubscribeExec
| UnsubscribeExit
| MonitorStop
| RegistryClear
| WgDone
| StopReturns
| Notified (j : Job)
| Handled (j : Job).

#[global] Instance Job_eq_dec : EqDecision Job.
Proof. solve_decision. Defined.

#[global] Instance LifeEvent_eq_dec : EqDecision LifeEvent.
Proof. solve_decision. Defined.

Record System : Type := mkSystem {
  stop_pc : StopPc;
  loop_pc : LoopPc;
  done_closed : bool;          (* the channel [p.done] *)
  wg : Z;                      (* the counter of [p.wg] *)
  subscribedExec : bool;       (* handleProcessStart is subscribed *)
  subscribedExit : bool;       (* handleProcessExit is subscribed *)
  inflight : list Job;         (* callbacks of the monitor that have not finished *)
  world : World;
  before_clear : option World; (* ghost: the world [Clear] was called on *)
  history : list LifeEvent
}.

Inductive Label : Type :=
| StopCloseDone                 (* Stop: close(p.done) *)
| StopWaitReturns               (* Stop: p.wg.Wait() returns *)
| LoopTick                      (* loop: case <-processSync.C: p.sync(); p.registry.Log() *)
| LoopDone                      (* loop: case <-p.done: return *)
| LoopDeferred                  (* loop: the next statement of the deferred function *)
| MonitorNotify (j : Job)       (* monitor: an event reaches a subscribed handler *)
| MonitorRun (k : nat).         (* monitor: the k-th pending handler runs *)

Section Steps.

Context (X : Env) (p : goTLSProgram).

(** The state [PreStart] leaves behind when it succeeds. *)
Definition started (w : World) : System :=
  mkSystem NotCalled Selecting false 1 true true [] w None [].

Definition run_job (j : Job) (w : World) : World :=
  match j with
  | JobStart pid => handleProcessStart X p pid w
  | JobExit pid => handleProcessExit p pid w
  end.

Definition job_subscribed (j : Job) (sys : System) : bool :=
  match j with
  | JobStart _ => subscribedExec sys
  | JobExit _ => subscribedExit sys
  end.

(** One statement of the deferred function of the goroutine.
    Modelled from the spec: [procMonitor.Stop()] (package monitor, not in the
    sources) "waits for any in-flight Attach/Detach to finish"; it is enabled
    once no handler is pending. *)
Definition fire_deferred (sys : System) : option System :=
  let 'mkSystem sp lp dc n se sx jobs w bc h := sys in
  match lp with
  | Selecting | Exited => None
  | AtTickerStop => Some (mkSystem sp AtCleanupExec dc n se sx jobs w bc (h ++ [TickerStop]))
  | AtCleanupExec =>
      Some (mkSystem sp AtCleanupExit dc n false sx jobs w bc (h ++ [UnsubscribeExec]))
  | AtCleanupExit =>
      Some (mkSystem sp AtMonitorStop dc n se false jobs w bc (h ++ [UnsubscribeExit]))
  | AtMonitorStop =>
      match jobs with
      | [] => Some (mkSystem sp AtRegistryClear dc n se sx jobs w bc (h ++ [MonitorStop]))
      | _ :: _ => None
      end
  | AtRegistryClear =>
      Some (mkSystem sp AtWgDone dc n se sx jobs (Clear w) (Some w) (h ++ [RegistryClear]))
  | AtWgDone => Some (mkSystem sp Exited dc (n - 1) se sx jobs w bc (h ++ [WgDone]))
  end.

Definition fire (l : Label) (sys : System) : option System :=
  let 'mkSystem sp lp dc n se sx jobs w bc h := sys in
  match l with
  | StopCloseDone =>
      match sp with
      | NotCalled => Some (mkSystem Waiting lp true n se sx jobs w bc (h ++ [CloseDone]))
      | _ => None
      end
  | StopWaitReturns =>
      match sp with
      | Waiting =>
          if n =? 0 then Some (mkSystem Returned lp dc n se sx jobs w bc (h ++ [StopReturns]))
          else None
      | _ => None
      end
  | LoopTick =>
      match lp with
      | Selecting => Some (mkSystem sp lp dc n se sx jobs (sync X p w) bc (h ++ [SyncPass]))
      | _ => None
      end
  | LoopDone =>
      match lp with
      | Selecting => if dc then Some (mkSystem sp AtTickerStop dc n se sx jobs w bc h) else None
      | _ => None
      end
  | LoopDeferred => fire_deferred sys
  | MonitorNotify j =>
      if job_subscribed j sys
      then Some (mkSystem sp lp dc n se sx (jobs ++ [j]) w bc (h ++ [Notified j]))
      else None
  | MonitorRun k =>
      match jobs !! k with
      | Some j =>
          Some (mkSystem sp lp dc n se sx (delete k jobs) (run_job j w) bc (h ++ [Handled j]))
      | None => None
      end
  end.

(** A schedule: the labels fired in order, if each is enabled in its turn. *)
Fixpoint exec (sys : System) (schedule : list Label) : option System :=
  match schedule with
  | [] => Some sys
  | l :: rest =>
      match fire l sys with
      | Some sys' => exec sys' rest
      | None => None
      end
  end.

End Steps.

(** The statements of [Stop] and of the deferred function, as they appear
    in a history. *)
Definition is_shutdown_event (e : LifeEvent) : bool :=
  match e with
  | SyncPass | Notified _ | Handled _ => false
  | _ => true
  end.

Definition shutdown_events (h : list LifeEvent) : list LifeEvent :=
  List.filter is_shutdown_event h.

(** The deferred statements executed when the goroutine stands at [lp]. *)
Definition deferred_so_far (lp : LoopPc) : list LifeEvent :=
  match lp with
  | Selecting | AtTickerStop => []
  | AtCleanupExec => [TickerStop]
  | AtCleanupExit => [TickerStop; UnsubscribeExec]
  | AtMonitorStop => [TickerStop; UnsubscribeExec; UnsubscribeExit]
  | AtRegistryClear => [TickerStop; UnsubscribeExec; UnsubscribeExit; MonitorStop]
  | AtWgDone => [TickerStop; UnsubscribeExec; UnsubscribeExit; MonitorStop; RegistryClear]
  | Exited =>
      [TickerStop; UnsubscribeExec; UnsubscribeExit; MonitorStop; RegistryClear; WgDone]
  end.

Definition expected_shutdown_events (sp : StopPc) (lp : LoopPc) : list LifeEvent :=
  match sp with
  | NotCalled => []
  | Waiting => CloseDone :: deferred_so_far lp
  | Returned => CloseDone :: deferred_so_far lp ++ [StopReturns]
  end.

(** What has run since [procMonitor.Stop()] returned. *)
Definition since_monitor_stop (sp : StopPc) (lp : LoopPc) : list LifeEvent :=
  match lp with
  | AtRegistryClear => [MonitorStop]
  | AtWgDone => [MonitorStop; RegistryClear]
  | Exited =>
      [MonitorStop; RegistryClear; WgDone]
        ++ match sp with Returned => [StopReturns] | _ => [] end
  | _ => []
  end.

Definition handlers_drained (lp : LoopPc) : bool :=
  match lp with
  | AtRegistryClear | AtWgDone | Exited => true
  | _ => false
  end.

Definition cleared (lp : LoopPc) : bool :=
  match lp with
  | AtWgDone | Exited => true
  | _ => false
  end.

(** The invariant of the interleavings. *)
Record Inv (sys : System) : Prop := mkInv {
  inv_done : done_closed sys = match stop_pc sys with NotCalled => false | _ => true end;
  inv_wg : wg sys = match loop_pc sys with Exited => 0 | _ => 1 end;
  inv_returned : stop_pc sys = Returned -> loop_pc sys = Exited;
  inv_loop : loop_pc sys <> Selecting -> stop_pc sys <> NotCalled;
  inv_events : shutdown_events (history sys) = expected_shutdown_events (stop_pc sys) (loop_pc sys);
  inv_exec : subscribedExec sys = true ->
             loop_pc sys = Selecting \/ loop_pc sys = AtTickerStop \/ loop_pc sys = AtCleanupExec;
  inv_exit : subscribedExit sys = true ->
             loop_pc sys = Selecting \/ loop_pc sys = AtTickerStop \/ loop_pc sys = AtCleanupExec
             \/ loop_pc sys = AtCleanupExit;
  inv_drained : handlers_drained (loop_pc sys) = true ->
                inflight sys = []
                /\ exists pre, history sys = pre ++ since_monitor_stop (stop_pc sys) (loop_pc sys);
  inv_cleared : cleared (loop_pc sys) = true ->
                exists before, before_clear sys = Some before /\ world sys = Clear before
}.

End Lifecycle.

(** ** Vocabulary of the statements about hooks at shutdown *)



(** The manager detaches every probe it is asked to. *)
Definition detach_never_fails (X : Env) : Prop :=
  forall attached id, DetachHook_err X attached id = None.


(** The strings a pattern denotes, as the regexp syntax defines them; the
    matcher is checked against this reading below. *)
Inductive denotes : Regexp.regex -> string -> Prop :=
| denotes_Eps : denotes Regexp.Eps ""
| denotes_Chr c : denotes (Regexp.Chr c) (String c "")
| denotes_Dot c : c <> Regexp.line_feed -> denotes Regexp.Dot (String c "")
| denotes_AnyByte c : denotes Regexp.AnyByte (String c "")
| denotes_Cat r1 r2 s1 s2 :
    denotes r1 s1 -> denotes r2 s2 -> denotes (Regexp.Cat r1 r2) (s1 +:+ s2)
| denotes_Alt_l r1 r2 s : denotes r1 s -> denotes (Regexp.Alt r1 r2) s
| denotes_Alt_r r1 r2 s : denotes r2 s -> denotes (Regexp.Alt r1 r2) s
| denotes_Star_nil r : denotes (Regexp.Star r) ""
| denotes_Star_app r s1 s2 :
    denotes r s1 -> denotes (Regexp.Star r) s2 -> denotes (Regexp.Star r) (s1 +:+ s2).

(** No character of the string is a line feed. *)
Fixpoint no_line_feed (s : string) : bool :=
  match s with
  | EmptyString => true
  | String c s' => negb (Ascii.eqb c Regexp.line_feed) && no_line_feed s'
  end.

(** The names of the internal agent binaries in [internalProcessRegex]. *)
Definition internal_binary_names : list string :=
  ["process-agent"; "security-agent"; "trace-agent"; "system-probe"; "agent"].

(** ** Vocabulary of the statements about the probes of a binary *)

Section ProbeVocabulary.

Context (X : Env).

(** The identifiers of the return probes of one function: one per return
    location, numbered from [i]. *)
Fixpoint return_probe_ids (uprobes : uprobesInfo) (uid : string) (i : Z)
    (offsets : list Z) : list ProbeIdentificationPair :=
  match offsets with
  | [] => []
  | _ :: rest =>
      mkProbeID (returnInfo uprobes) (makeReturnUID X uid i)
        :: return_probe_ids uprobes uid (i + 1) rest
  end.

(** The identifiers of the probes of one target function: its return probes,
    when the configuration asks for them, then its entry probe. *)
Definition function_probe_ids (result : Result) (uid : string)
    (target : string * uprobesInfo) : list ProbeIdentificationPair :=
  (if IncludeReturnLocations (functionsConfig_at X target.1)
   then return_probe_ids target.2 uid 0 (ReturnLocations (Functions_at result target.1))
   else [])
  ++ (if decide (functionInfo target.2 <> "") then [mkProbeID (functionInfo target.2) uid]
      else []).

(** A target asks for return probes only if it names a return program. *)
Definition well_configured (target : string * uprobesInfo) : Prop :=
  IncludeReturnLocations (functionsConfig_at X target.1) = true ->
  returnInfo target.2 <> "".

(** [makeReturnUID] gives different identifiers to different indexes. *)
Definition return_uids_distinct (uid : string) : Prop :=
  forall i j : Z, 0 <= i -> 0 <= j -> makeReturnUID X uid i = makeReturnUID X uid j -> i = j.

End ProbeVocabulary.

(** ** Vocabulary of the statements about a registration that is undone *)

(** The manager detaches every probe that is attached. *)
Definition detaches_attached (X : Env) : Prop :=
  forall attached id, id ∈ attached -> DetachHook_err X attached id = None.

(** ** Vocabulary of the statement that [Stop] can always return *)

(** The statements of the deferred function still to run. *)
Definition remaining_deferred (lp : Lifecycle.LoopPc) : nat :=
  match lp with
  | Lifecycle.Selecting | Lifecycle.AtTickerStop => 6
  | Lifecycle.AtCleanupExec => 5
  | Lifecycle.AtCleanupExit => 4
  | Lifecycle.AtMonitorStop => 3
  | Lifecycle.AtRegistryClear => 2
  | Lifecycle.AtWgDone => 1
  | Lifecycle.Exited => 0
  end%nat.

(** A way to finish from [sys]: the pending handlers run, [Stop] is called
    if it was not, the loop takes the [p.done] case and runs its deferred
    function, and [p.wg.Wait()] returns.  No tick and no new event. *)
Definition shutdown_schedule (sys : Lifecycle.System) : list Lifecycle.Label :=
  replicate (length (Lifecycle.inflight sys)) (Lifecycle.MonitorRun 0)
  ++ match Lifecycle.stop_pc sys with
     | Lifecycle.NotCalled => [Lifecycle.StopCloseDone]
     | _ => []
     end
  ++ match Lifecycle.loop_pc sys with
     | Lifecycle.Selecting => [Lifecycle.LoopDone]
     | _ => []
     end
  ++ replicate (remaining_deferred (Lifecycle.loop_pc sys)) Lifecycle.LoopDeferred
  ++ match Lifecycle.stop_pc sys with
     | Lifecycle.Returned => []
     | _ => [Lifecycle.StopWaitReturns]
     end.

(** ** Scan requests of the host file system (package [host])

    [os.Getenv] and [env.IsContainerized] are read from the environment. *)

Module HostScan.

Record scanRequest : Type := mkScanRequest { Path : string }.

Definition NewScanRequest (path : string) : scanRequest := mkScanRequest path.

Definition NewHostScanRequest (os_Getenv : string -> string) (IsContainerized : bool)
    : scanRequest :=
  let scanPath := "/" in
  let hostRoot := os_Getenv "HOST_ROOT" in
  let scanPath :=
    if IsContainerized && negb (bool_decide (hostRoot = "")) then hostRoot else scanPath in
  NewScanRequest scanPath.

Definition Collector (r : scanRequest) : string := "host".

Definition ID (r : scanRequest) : string := Path r.

End HostScan.

(** * Properties *)

Ltac unfold_monad := unfold log_Errorf in *; unfold bind, ret, modify, gets in *.

Lemma new_events_app s s' l : trace s' = trace s ++ l -> new_events s s' = l.
Proof. unfold new_events. intros ->. by rewrite drop_app_length. Qed.

Lemma new_calls_app w w' l : calls w' = calls w ++ l -> new_calls w w' = l.
Proof. unfold new_calls. intros ->. by rewrite drop_app_length. Qed.

(** ** The regular-expression matcher *)

Section RegexpMatcher.

Import Regexp.

Lemma string_app_nil_r (s : string) : s +:+ "" = s.
Proof.
  induction s as [|c s IH]; [done|].
  change (String c (s +:+ "") = String c s). by rewrite IH.
Qed.

Lemma string_app_eq_nil (s1 s2 : string) : s1 +:+ s2 = "" -> s1 = "" /\ s2 = "".
Proof. destruct s1; simpl; [done|discriminate]. Qed.

Lemma denotes_Cat_inv r1 r2 s :
  denotes (Cat r1 r2) s -> exists s1 s2, s = s1 +:+ s2 /\ denotes r1 s1 /\ denotes r2 s2.
Proof. inversion 1; subst. eauto. Qed.

Lemma denotes_Alt_inv r1 r2 s : denotes (Alt r1 r2) s -> denotes r1 s \/ denotes r2 s.
Proof. inversion 1; subst; eauto. Qed.

Lemma denotes_Fail s : ~ denotes Fail_ s.
Proof. inversion 1. Qed.

Lemma denotes_Eps_inv s : denotes Eps s -> s = "".
Proof. by inversion 1. Qed.

Lemma nullable_denotes r : nullable r = true <-> denotes r "".
Proof.
  split.
  - induction r; simpl; try discriminate; intros H.
    + constructor.
    + apply andb_true_iff in H as [H1 H2].
      change "" with ("" +:+ ""). constructor; auto.
    + apply orb_true_iff in H as [H|H]; [apply denotes_Alt_l|apply denotes_Alt_r]; auto.
    + constructor.
  - intros H. remember "" as s eqn:Hs. induction H; simpl; try discriminate; try done.
    + apply string_app_eq_nil in Hs as [-> ->]. by rewrite IHdenotes1, IHdenotes2.
    + by rewrite IHdenotes.
    + rewrite IHdenotes by done. apply orb_true_r.
Qed.

Lemma cat_denotes r1 r2 s : denotes (cat r1 r2) s <-> denotes (Cat r1 r2) s.
Proof.
  assert (Hl : forall r, denotes r s <-> denotes (Cat Eps r) s).
  { intros r. split.
    - intros H. change s with ("" +:+ s). by repeat constructor.
    - intros H. apply denotes_Cat_inv in H as (s1 & s2 & -> & H1 & H2).
      apply denotes_Eps_inv in H1 as ->. done. }
  assert (Hr : forall r, denotes r s <-> denotes (Cat r Eps) s).
  { intros r. split.
    - intros H. rewrite <- (string_app_nil_r s). by repeat constructor.
    - intros H. apply denotes_Cat_inv in H as (s1 & s2 & -> & H1 & H2).
      apply denotes_Eps_inv in H2 as ->. by rewrite string_app_nil_r. }
  assert (Hfl : forall r, denotes Fail_ s <-> denotes (Cat Fail_ r) s).
  { intros r. split; [intros H; by apply denotes_Fail in H|].
    intros H. apply denotes_Cat_inv in H as (s1 & s2 & -> & H1 & H2).
    by apply denotes_Fail in H1. }
  assert (Hfr : forall r, denotes Fail_ s <-> denotes (Cat r Fail_) s).
  { intros r. split; [intros H; by apply denotes_Fail in H|].
    intros H. apply denotes_Cat_inv in H as (s1 & s2 & -> & H1 & H2).
    by apply denotes_Fail in H2. }
  destruct r1, r2; simpl; auto.
Qed.

Lemma alt_denotes r1 r2 s : denotes (alt r1 r2) s <-> denotes (Alt r1 r2) s.
Proof.
  assert (Hl : forall r, denotes r s <-> denotes (Alt Fail_ r) s).
  { intros r. split; [by apply denotes_Alt_r|].
    intros H. apply denotes_Alt_inv in H as [H|H]; [by apply denotes_Fail in H|done]. }
  assert (Hr : forall r, denotes r s <-> denotes (Alt r Fail_) s).
  { intros r. split; [by apply denotes_Alt_l|].
    intros H. apply denotes_Alt_inv in H as [H|H]; [done|by apply denotes_Fail in H]. }
  destruct r1, r2; simpl; auto.
Qed.

(** A non-empty match of a starred pattern starts with a non-empty match of
    the pattern. *)
Lemma denotes_Star_cons r c s :
  denotes (Star r) (String c s) ->
  exists s1 s2, s = s1 +:+ s2 /\ denotes r (String c s1) /\ denotes (Star r) s2.
Proof.
  intros H. remember (Star r) as r' eqn:Hr. remember (String c s) as s' eqn:Hs.
  revert c s Hs. induction H; intros c0 s0 Hs; try discriminate.
  injection Hr as ->. destruct s1 as [|c1 s1]; simpl in Hs.
  - by apply IHdenotes2.
  - injection Hs as -> <-. eauto.
Qed.

Lemma deriv_denotes c r : forall s, denotes (deriv c r) s <-> denotes r (String c s).
Proof.
  induction r as [| |c'| | |r1 IH1 r2 IH2|r1 IH1 r2 IH2|r IH]; intros s; simpl.
  - split; inversion 1.
  - split; inversion 1.
  - destruct (Ascii.eqb c c') eqn:Heq.
    + apply Ascii.eqb_eq in Heq as ->. split.
      * intros H. apply denotes_Eps_inv in H as ->. constructor.
      * inversion 1. constructor.
    + split; [intros H; by apply denotes_Fail in H|].
      inversion 1; subst. by rewrite Ascii.eqb_refl in Heq.
  - destruct (Ascii.eqb c line_feed) eqn:Heq.
    + apply Ascii.eqb_eq in Heq as ->. split; [intros H; by apply denotes_Fail in H|].
      inversion 1; subst. done.
    + split.
      * intros H. apply denotes_Eps_inv in H as ->. constructor.
        intros ->. by rewrite Ascii.eqb_refl in Heq.
      * inversion 1. constructor.
  - split.
    + intros H. apply denotes_Eps_inv in H as ->. constructor.
    + inversion 1. constructor.
  - assert (Hfirst : denotes (cat (deriv c r1) r2) s
                     <-> exists s1 s2, s = s1 +:+ s2 /\ denotes r1 (String c s1)
                                       /\ denotes r2 s2).
    { rewrite cat_denotes. split.
      - intros H. apply denotes_Cat_inv in H as (s1 & s2 & -> & H1 & H2).
        apply IH1 in H1. eauto.
      - intros (s1 & s2 & -> & H1 & H2). constructor; [by apply IH1|done]. }
    assert (Hcat : denotes (Cat r1 r2) (String c s)
                   <-> (exists s1 s2, s = s1 +:+ s2 /\ denotes r1 (String c s1)
                                      /\ denotes r2 s2)
                       \/ (denotes r1 "" /\ denotes r2 (String c s))).
    { split.
      - intros H. apply denotes_Cat_inv in H as (s1 & s2 & Hs & H1 & H2).
        destruct s1 as [|c1 s1].
        + change ("" +:+ s2) with s2 in Hs. right. by subst s2.
        + injection Hs as -> ->. left. eauto.
      - intros [(s1 & s2 & -> & H1 & H2)|[H1 H2]].
        + change (String c (s1 +:+ s2)) with (String c s1 +:+ s2). by constructor.
        + change (String c s) with ("" +:+ String c s). by constructor. }
    rewrite Hcat. destruct (nullable r1) eqn:Hn.
    + rewrite alt_denotes. split.
      * intros H. apply denotes_Alt_inv in H as [H|H].
        -- left. by apply Hfirst.
        -- right. split; [by apply nullable_denotes|by apply IH2].
      * intros [H|[_ H]].
        -- apply denotes_Alt_l. by apply Hfirst.
        -- apply denotes_Alt_r. by apply IH2.
    + rewrite Hfirst. split; [by left|]. intros [H|[H _]]; [done|].
      apply nullable_denotes in H. congruence.
  - rewrite alt_denotes. split.
    + intros H. apply denotes_Alt_inv in H as [H|H];
        [apply denotes_Alt_l; by apply IH1|apply denotes_Alt_r; by apply IH2].
    + intros H. apply denotes_Alt_inv in H as [H|H];
        [apply denotes_Alt_l; by apply IH1|apply denotes_Alt_r; by apply IH2].
  - rewrite cat_denotes. split.
    + intros H. apply denotes_Cat_inv in H as (s1 & s2 & -> & H1 & H2).
      apply IH in H1. change (String c (s1 +:+ s2)) with (String c s1 +:+ s2).
      by constructor.
    + intros H. apply denotes_Star_cons in H as (s1 & s2 & -> & H1 & H2).
      constructor; [by apply IH|done].
Qed.

(** The anchored matcher decides the denotation. *)
Lemma full_match_denotes s : forall r, full_match r s = true <-> denotes r s.
Proof.
  induction s as [|c s IH]; intros r; simpl.
  - apply nullable_denotes.
  - rewrite IH. apply deriv_denotes.
Qed.

Lemma denotes_any_bytes s : denotes (Star AnyByte) s.
Proof.
  induction s as [|c s IH]; [constructor|].
  change (String c s) with (String c "" +:+ s). constructor; [constructor|done].
Qed.

(** [MatchString] holds exactly of the strings with a substring that the
    pattern denotes. *)
Lemma MatchString_denotes r s :
  MatchString r s = true
  <-> exists before mid after, s = before +:+ mid +:+ after /\ denotes r mid.
Proof.
  unfold MatchString. rewrite full_match_denotes. split.
  - intros H. apply denotes_Cat_inv in H as (s1 & s' & -> & _ & H).
    apply denotes_Cat_inv in H as (s2 & s3 & -> & H2 & _). eauto.
  - intros (s1 & s2 & s3 & -> & H).
    constructor; [apply denotes_any_bytes|].
    constructor; [done|apply denotes_any_bytes].
Qed.

Lemma denotes_Chr_inv c s : denotes (Chr c) s -> s = String c "".
Proof. by inversion 1. Qed.

Lemma denotes_lit (s x : string) : denotes (lit s) x <-> x = s.
Proof.
  revert x. induction s as [|c s IH]; intros x.
  - simpl. split; [apply denotes_Eps_inv|intros ->; constructor].
  - destruct s as [|c' s'].
    + simpl. split; [apply denotes_Chr_inv|intros ->; constructor].
    + change (lit (String c (String c' s'))) with (Cat (Chr c) (lit (String c' s'))).
      split.
      * intros H. apply denotes_Cat_inv in H as (s1 & s2 & -> & H1 & H2).
        apply denotes_Chr_inv in H1 as ->. apply IH in H2 as ->. done.
      * intros ->. change (String c (String c' s')) with (String c "" +:+ String c' s').
        constructor; [constructor|by apply IH].
Qed.

Lemma denotes_Star_Dot (s : string) : denotes (Star Dot) s <-> no_line_feed s = true.
Proof.
  split.
  - induction s as [|c s IH]; intros H; [done|].
    apply denotes_Star_cons in H as (s1 & s2 & -> & H1 & H2).
    inversion H1; subst. simpl.
    rewrite (IH H2). rewrite andb_true_r. apply negb_true_iff.
    by apply Ascii.eqb_neq.
  - induction s as [|c s IH]; intros H; [constructor|].
    simpl in H. apply andb_true_iff in H as [Hc Hs].
    change (String c s) with (String c "" +:+ s). constructor; [|by apply IH].
    constructor. apply negb_true_iff in Hc. by apply Ascii.eqb_neq.
Qed.

(** X4.  What [internalProcessRegex] matches: exactly the paths that hold
    [datadog-agent/], later a [/] with no line feed in between, directly
    followed by the name of an internal agent binary (a prefix of the last
    path element is enough, and at least one directory lies in between). *)
Lemma internalProcessRegex_matches (path : string) :
  MatchString internalProcessRegex path = true
  <-> exists before mid name after,
        path = before +:+ ("datadog-agent/" +:+ (mid +:+ ("/" +:+ name))) +:+ after
        /\ no_line_feed mid = true
        /\ name ∈ internal_binary_names.
Proof.
  rewrite MatchString_denotes. unfold internalProcessRegex. split.
  - intros (before & m & after & -> & H).
    apply denotes_Cat_inv in H as (a & m1 & -> & Ha & H). apply denotes_lit in Ha as ->.
    apply denotes_Cat_inv in H as (mid & m2 & -> & Hmid & H).
    apply denotes_Star_Dot in Hmid.
    apply denotes_Cat_inv in H as (sl & name & -> & Hsl & H). apply denotes_lit in Hsl as ->.
    exists before, mid, name, after. split; [done|]. split; [done|].
    unfold internal_binary_names.
    apply denotes_Alt_inv in H as [H|H].
    + apply denotes_Alt_inv in H as [H|H].
      * apply denotes_Cat_inv in H as (k & suffix & -> & Hk & Hsuf).
        apply denotes_lit in Hsuf as ->.
        apply denotes_Alt_inv in Hk as [Hk|Hk].
        -- apply denotes_Alt_inv in Hk as [Hk|Hk]; apply denotes_lit in Hk as ->;
             set_solver.
        -- apply denotes_lit in Hk as ->. set_solver.
      * apply denotes_lit in H as ->. set_solver.
    + apply denotes_lit in H as ->. set_solver.
  - intros (before & mid & name & after & -> & Hmid & Hname).
    exists before, ("datadog-agent/" +:+ (mid +:+ ("/" +:+ name))), after.
    split; [done|].
    constructor; [by apply denotes_lit|].
    constructor; [by apply denotes_Star_Dot|].
    constructor; [by apply denotes_lit|].
    unfold internal_binary_names in Hname.
    repeat (apply elem_of_cons in Hname as [->|Hname]).
    + apply denotes_Alt_l, denotes_Alt_l.
      change "process-agent" with ("process" +:+ "-agent").
      constructor; [|by apply denotes_lit].
      apply denotes_Alt_l, denotes_Alt_l. by apply denotes_lit.
    + apply denotes_Alt_l, denotes_Alt_l.
      change "security-agent" with ("security" +:+ "-agent").
      constructor; [|by apply denotes_lit].
      apply denotes_Alt_l, denotes_Alt_r. by apply denotes_lit.
    + apply denotes_Alt_l, denotes_Alt_l.
      change "trace-agent" with ("trace" +:+ "-agent").
      constructor; [|by apply denotes_lit].
      apply denotes_Alt_r. by apply denotes_lit.
    + apply denotes_Alt_l, denotes_Alt_r. by apply denotes_lit.
    + apply denotes_Alt_r. by apply denotes_lit.
    + by apply elem_of_nil in Hname.
Qed.

End RegexpMatcher.

(** ** Lookup-table keys *)

Section LookupTable.

Context (X : Env).

Lemma Map_Put_ok key value s s1 :
    Map_Put X key value s = (None, s1) ->
    s1 = emit (EvMapPut key None) (set_offsetsDataMap (<[key := value]> (offsetsDataMap s)) s).
Proof. unfold Map_Put. destruct (Put_err _ _ _); congruence. Qed.

Lemma addInspectionResultToMap_ok binID result s s1 :
    addInspectionResultToMap X binID result s = (None, s1) ->
    exists data,
      inspectionResultToProbeData X result = Ok data
      /\ s1 = emit (EvMapPut (addInspectionResult_key binID) None)
                (set_offsetsDataMap
                   (<[addInspectionResult_key binID := data]> (offsetsDataMap s)) s).
Proof.
    unfold addInspectionResultToMap.
    destruct (inspectionResultToProbeData X result) as [data|e]; unfold_monad; [|congruence].
    destruct (Map_Put X _ data s) as [[e|] s'] eqn:HP; [congruence|].
    intros [= <-]. exists data. split; [done|]. by apply Map_Put_ok.
Qed.

(** What [removeInspectionResultFromMap] leaves behind, whether or not the
    key was present. *)
Lemma removeInspectionResultFromMap_spec binID s :
    let key := removeInspectionResult_key binID in
    let s' := (removeInspectionResultFromMap binID s).2 in
    offsetsDataMap s' = delete key (offsetsDataMap s)
    /\ hooks s' = hooks s /\ heap s' = heap s
    /\ binNoSymbolsMetric s' = binNoSymbolsMetric s
    /\ binAnalysisMetric s' = binAnalysisMetric s
    /\ exists r, trace s' = trace s ++ EvMapDelete key r ::
                   match r with
                   | Some _ => [EvLogErrorf "could not remove inspection result from map for ino %v: %s"]
                   | None => []
                   end
                 /\ (r = None <-> is_Some (offsetsDataMap s !! key)).
Proof.
    intros key s'. subst s'. unfold removeInspectionResultFromMap, Map_Delete.
    unfold_monad. fold key.
    destruct (offsetsDataMap s !! key) as [v|] eqn:Hk; simpl.
    - repeat split; try done. exists None. split; [done|]. split; eauto.
    - repeat split; try done.
      + symmetry. by apply delete_id.
      + eexists (Some _). split.
        * by rewrite <- app_assoc.
        * split; [done|]. by intros [? ?].
Qed.

(** C9.  The key under which [addInspectionResultToMap] writes and the key
    [removeInspectionResultFromMap] deletes are both the triple (device
    major, device minor, inode) of the binary's path identifier; hence a
    successful Put followed by a Delete for the same identity hits the
    entry just written: the Delete succeeds and the entry is gone. *)
Theorem put_then_delete_same_entry (binID : PathIdentifier) (result : Result)
      (s s1 : State) :
    addInspectionResultToMap X binID result s = (None, s1) ->
    let key := mkTlsBinaryId (unix_Major (Dev binID)) (unix_Minor (Dev binID)) (Inode binID) in
    let s2 := (removeInspectionResultFromMap binID s1).2 in
    addInspectionResult_key binID = key
    /\ removeInspectionResult_key binID = key
    /\ new_events s s1 = [EvMapPut key None]
    /\ is_Some (offsetsDataMap s1 !! key)
    /\ new_events s1 s2 = [EvMapDelete key None]
    /\ offsetsDataMap s2 !! key = None
    /\ offsetsDataMap s2 = delete key (offsetsDataMap s).
Proof.
    intros Hput key s2.
    apply addInspectionResultToMap_ok in Hput as (data & _ & Hs1).
    change (addInspectionResult_key binID) with key in Hs1.
    destruct (removeInspectionResultFromMap_spec binID s1) as (Hm & _ & _ & _ & _ & r & Ht & Hr).
    change (removeInspectionResult_key binID) with key in *. fold s2 in Hm, Ht.
    assert (Hin : offsetsDataMap s1 !! key = Some data).
    { subst s1. simpl. apply lookup_insert_eq. }
    assert (r = None) as -> by (apply Hr; eauto).
    split; [done|]. split; [done|]. split; [|split; [|split; [|split]]].
    - apply new_events_app. by subst s1.
    - eauto.
    - by apply new_events_app.
    - rewrite Hm. apply lookup_delete_eq.
    - rewrite Hm. subst s1. simpl. apply delete_insert_eq.
Qed.

End LookupTable.

Lemma put_then_delete_same_entry_witness :
  let s1 := (addInspectionResultToMap Host.env Host.server_id
               (Host.functions_of []) Host.state0).2 in
  let s2 := (removeInspectionResultFromMap Host.server_id s1).2 in
  addInspectionResult_key Host.server_id = mkTlsBinaryId 8 3 1001
  /\ new_events s1 s2 = [EvMapDelete (mkTlsBinaryId 8 3 1001) None]
  /\ offsetsDataMap s2 !! mkTlsBinaryId 8 3 1001 = None.
Proof.
  intros s1 s2.
  pose proof (put_then_delete_same_entry Host.env Host.server_id
                (Host.functions_of []) Host.state0 s1 eq_refl) as H.
  cbv zeta in H. destruct H as (H1 & _ & _ & _ & H5 & H6 & _).
  split; [exact H1|]. split; [exact H5|exact H6].
Defined.

(** ** [AttachPID]: exclusion policy and unresolved executables *)

Section AttachPolicy.

Context (X : Env).

Lemma record_call_new w c : new_calls w (record_call c w) = [c].
Proof. by apply new_calls_app. Qed.

(** C6.  When the self-exclusion policy applies to a PID (it is enabled and
    the PID is the agent's own), [AttachPID] returns [ErrSelfExcluded];
    when the executable of the process matches the internal-agent pattern,
    it returns [ErrInternalDDogProcessRejected] (the self check, made
    first, wins when both apply).  In both cases the only call made is the
    entry into [AttachPID] itself: [Registry.Register] is not called and
    neither the registry nor the attacher's state changes. *)
Theorem AttachPID_policy_exclusion (p : goTLSProgram) (pid : Z) (w : World) :
    self_excluded X p pid = true \/ internal_process X p pid = true ->
    let err := (AttachPID X p pid w).1 in
    let w' := (AttachPID X p pid w).2 in
    err = Some (if self_excluded X p pid then ErrSelfExcluded
                else ErrInternalDDogProcessRejected)
    /\ new_calls w w' = [CallAttachPID pid]
    /\ Forall (fun c => is_Register_call c = false) (new_calls w w')
    /\ registry w' = registry w
    /\ state w' = state w.
Proof.
    intros Hpol. unfold AttachPID. fold (self_excluded X p pid) (exe_path X p pid).
    destruct (self_excluded X p pid) eqn:Hself; simpl.
    - rewrite record_call_new. repeat split; try done. by repeat constructor.
    - destruct Hpol as [|Hint]; [done|]. unfold internal_process in Hint.
      destruct (os_Readlink X (exe_path X p pid)) as [binPath|e]; [|done].
      rewrite Hint. simpl. rewrite record_call_new.
      repeat split; try done. by repeat constructor.
Qed.

(** C10.  When the link [<procRoot>/<pid>/exe] that [AttachPID] reads cannot
    be resolved, [AttachPID] returns the error of the readlink, and the only
    call made is the entry into [AttachPID] itself: [Registry.Register] is
    not called, and the registry and the attacher's state are unchanged.
    (The readlink is reached when the self-exclusion check, made first, did
    not already return.) *)
Theorem AttachPID_unresolved_exe (p : goTLSProgram) (pid : Z) (w : World) (e : error) :
    self_excluded X p pid = false ->
    os_Readlink X (exe_path X p pid) = Err e ->
    let err := (AttachPID X p pid w).1 in
    let w' := (AttachPID X p pid w).2 in
    err = Some e
    /\ new_calls w w' = [CallAttachPID pid]
    /\ Forall (fun c => is_Register_call c = false) (new_calls w w')
    /\ registry w' = registry w
    /\ state w' = state w.
Proof.
    intros Hself Hlink. unfold AttachPID. fold (self_excluded X p pid) (exe_path X p pid).
    rewrite Hself, Hlink. simpl. rewrite record_call_new.
    repeat split; try done. by repeat constructor.
Qed.

(** Whatever the exclusion checks say, a PID whose link cannot be resolved
    never reaches the registry. *)
Lemma AttachPID_unresolved_never_registers (p : goTLSProgram) (pid : Z) (w : World) e :
    os_Readlink X (exe_path X p pid) = Err e ->
    let w' := (AttachPID X p pid w).2 in
    is_Some (AttachPID X p pid w).1
    /\ new_calls w w' = [CallAttachPID pid]
    /\ registry w' = registry w /\ state w' = state w.
Proof.
    intros Hlink. unfold AttachPID. fold (self_excluded X p pid) (exe_path X p pid).
    rewrite Hlink. destruct (self_excluded X p pid); simpl;
      rewrite record_call_new; repeat split; eauto.
Qed.

(** C8.  When the [AttachPID] call made by [GoTLSAttachPID] returns an error
    that is (or wraps) [utils.ErrPathIsAlreadyRegistered], [GoTLSAttachPID]
    returns nil; the effects of the call are those of [AttachPID]. *)
Theorem GoTLSAttachPID_duplicate_is_benign (p : goTLSProgram) (pid : Z) (w : World) :
    IsOpt (AttachPID X p pid w).1 ErrPathIsAlreadyRegistered = true ->
    (GoTLSAttachPID X (Some p) pid w).1 = None
    /\ (GoTLSAttachPID X (Some p) pid w).2 = (AttachPID X p pid w).2.
Proof.
    intros Hdup. unfold GoTLSAttachPID.
    destruct (AttachPID X p pid w) as [err w'] eqn:HA. simpl in Hdup.
    by rewrite Hdup.
Qed.

(** Any other outcome of [AttachPID] is returned as it is. *)
Lemma GoTLSAttachPID_other (p : goTLSProgram) (pid : Z) (w : World) :
    IsOpt (AttachPID X p pid w).1 ErrPathIsAlreadyRegistered = false ->
    GoTLSAttachPID X (Some p) pid w = AttachPID X p pid w.
Proof.
    intros Hdup. unfold GoTLSAttachPID.
    destruct (AttachPID X p pid w) as [err w'] eqn:HA. simpl in Hdup.
    by rewrite Hdup.
Qed.

End AttachPolicy.

Lemma AttachPID_policy_exclusion_witness :
  ((AttachPID Host.env Host.program 4242 Host.world0).1 = Some ErrSelfExcluded
   /\ registry (AttachPID Host.env Host.program 4242 Host.world0).2 = registry Host.world0)
  /\ ((AttachPID Host.env Host.program 200 Host.world0).1 = Some ErrInternalDDogProcessRejected
      /\ registry (AttachPID Host.env Host.program 200 Host.world0).2 = registry Host.world0).
Proof.
  split.
  - assert (Hpol : self_excluded Host.env Host.program 4242 = true
                   \/ internal_process Host.env Host.program 4242 = true)
      by (left; vm_compute; reflexivity).
    destruct (AttachPID_policy_exclusion Host.env Host.program 4242 Host.world0 Hpol)
      as (He & _ & _ & Hr & _).
    split; [exact He|exact Hr].
  - assert (Hpol : self_excluded Host.env Host.program 200 = true
                   \/ internal_process Host.env Host.program 200 = true)
      by (right; vm_compute; reflexivity).
    destruct (AttachPID_policy_exclusion Host.env Host.program 200 Host.world0 Hpol)
      as (He & _ & _ & Hr & _).
    split; [exact He|exact Hr].
Defined.

Lemma AttachPID_unresolved_exe_witness :
  (AttachPID Host.env Host.program 999 Host.world0).1
  = Some (Opaque "readlink: no such file or directory")
  /\ registry (AttachPID Host.env Host.program 999 Host.world0).2 = registry Host.world0.
Proof.
  assert (Hself : self_excluded Host.env Host.program 999 = false)
    by (vm_compute; reflexivity).
  assert (Hlink : os_Readlink Host.env (exe_path Host.env Host.program 999)
                  = Err (Opaque "readlink: no such file or directory"))
    by (vm_compute; reflexivity).
  destruct (AttachPID_unresolved_exe Host.env Host.program 999 Host.world0 _ Hself Hlink)
    as (He & _ & _ & Hr & _).
  split; [exact He|exact Hr].
Defined.

Lemma GoTLSAttachPID_duplicate_is_benign_witness :
  let w := (AttachPID Host.env Host.program 100 Host.world0).2 in
  (AttachPID Host.env Host.program 100 w).1 = Some ErrPathIsAlreadyRegistered
  /\ (GoTLSAttachPID Host.env (Some Host.program) 100 w).1 = None.
Proof.
  intros w. split; [vm_compute; reflexivity|].
  assert (Hdup : IsOpt (AttachPID Host.env Host.program 100 w).1
                   ErrPathIsAlreadyRegistered = true)
    by (vm_compute; reflexivity).
  exact (proj1 (GoTLSAttachPID_duplicate_is_benign Host.env Host.program 100 w Hdup)).
Defined.

(** ** The first-registration callback when the analysis fails *)

Section AnalysisFailure.

Context (X : Env).

Lemma Is_Wrapf msg e target :
  target <> Wrapf msg e -> Is (Wrapf msg e) target = Is e target.
Proof. intros Hne. simpl. by destruct (decide (Wrapf msg e = target)). Qed.

Lemma registerCB_inspect_err (probeIDs : nat) (filePath : FilePath) f elfFile e s :
  os_Open X (HostPath filePath) = Ok f ->
  safeelf_NewFile X f = Ok elfFile ->
  InspectNewProcessBinary X elfFile = Err e ->
  registerCBCreator X probeIDs filePath s
  = (Some (Wrapf "error extracting inspection data from %s: %w" e),
     if Is e ErrNoSymbols
     then set_binNoSymbolsMetric (binNoSymbolsMetric s + 1) s else s).
Proof.
  intros Hopen Helf Hinsp. unfold registerCBCreator.
  rewrite Hopen, Helf, Hinsp. unfold_monad.
  by destruct (Is e ErrNoSymbols).
Qed.

(** C7.  When the file opens and parses as ELF but the inspection of the
    binary fails, the first-registration callback returns a non-nil error
    wrapping the inspector's one, and the no-symbols counter grows by one
    exactly when that error is (or wraps) [safeelf.ErrNoSymbols] and not at
    all otherwise.  Nothing else changes: no hook is installed, the lookup
    table is not written.  Run by the registry for an identity without an
    entry, the callback is invoked once and no entry is created. *)
Theorem registerCB_analysis_failure (probeIDs : nat) (filePath : FilePath)
    (f : File) (elfFile : ElfFile) (e : error) (s : State) :
  os_Open X (HostPath filePath) = Ok f ->
  safeelf_NewFile X f = Ok elfFile ->
  InspectNewProcessBinary X elfFile = Err e ->
  let err := (registerCBCreator X probeIDs filePath s).1 in
  let s' := (registerCBCreator X probeIDs filePath s).2 in
  err = Some (Wrapf "error extracting inspection data from %s: %w" e)
  /\ IsOpt err ErrNoSymbols = Is e ErrNoSymbols
  /\ binNoSymbolsMetric s' = binNoSymbolsMetric s + (if Is e ErrNoSymbols then 1 else 0)
  /\ hooks s' = hooks s
  /\ offsetsDataMap s' = offsetsDataMap s
  /\ heap s' = heap s
  /\ trace s' = trace s
  /\ binAnalysisMetric s' = binAnalysisMetric s
  /\ forall (pid : Z) (onLast onAlreadyTracked : Callback) (w : World),
       state w = s -> registry w !! ID filePath = None ->
       let r := Register_resolved filePath pid (registerCBCreator X probeIDs)
                  onLast onAlreadyTracked w in
       r.1 = err
       /\ registry r.2 = registry w
       /\ new_calls w r.2 = [CbFirstRegister (ID filePath) err]
       /\ state r.2 = s'.
Proof.
  intros Hopen Helf Hinsp err s'. subst err s'.
  rewrite (registerCB_inspect_err probeIDs filePath f elfFile e s Hopen Helf Hinsp).
  cbn [fst snd].
  split; [done|]. split; [apply Is_Wrapf; done|].
  split; [destruct (Is e ErrNoSymbols); simpl; lia|].
  split; [by destruct (Is e ErrNoSymbols)|].
  split; [by destruct (Is e ErrNoSymbols)|].
  split; [by destruct (Is e ErrNoSymbols)|].
  split; [by destruct (Is e ErrNoSymbols)|].
  split; [by destruct (Is e ErrNoSymbols)|].
  intros pid onLast onAlready w Hs Hreg.
  unfold Register_resolved. rewrite Hreg, Hs.
  rewrite (registerCB_inspect_err probeIDs filePath f elfFile e s Hopen Helf Hinsp).
  cbn [fst snd]. split; [done|]. split; [done|]. split; [|done].
  by apply new_calls_app.
Qed.

End AnalysisFailure.

Lemma registerCB_analysis_failure_witness :
  let fp := mkFilePath "/usr/bin/stripped" Host.stripped_id 300 in
  let s' := (registerCBCreator Host.env 0 fp Host.state0).2 in
  IsOpt (registerCBCreator Host.env 0 fp Host.state0).1 ErrNoSymbols = true
  /\ binNoSymbolsMetric s' = 1
  /\ hooks s' = [].
Proof.
  intros fp s'.
  destruct (registerCB_analysis_failure Host.env 0 fp
              (mkFile "/usr/bin/stripped") (mkElfFile (mkFile "/usr/bin/stripped"))
              (Wrapf "failed retrieving symbols: %w" ErrNoSymbols) Host.state0
              eq_refl eq_refl eq_refl) as (_ & HIs & Hc & Hh & _).
  split; [exact HIs|]. split; [exact Hc|exact Hh].
Defined.

(** ** Installing hooks *)

Section InstallHooks.

Context (X : Env).

Lemma added_hooks_app evs1 evs2 :
  added_hooks (evs1 ++ evs2) = added_hooks evs1 ++ added_hooks evs2.
Proof. apply omap_app. Qed.

Lemma attach_frame_refl s : attach_frame s s [].
Proof. unfold attach_frame. simpl. by rewrite !app_nil_r. Qed.

Lemma attach_frame_trans s1 s2 s3 evs1 evs2 :
  attach_frame s1 s2 evs1 -> attach_frame s2 s3 evs2 ->
  attach_frame s1 s3 (evs1 ++ evs2).
Proof.
  intros (Ht1 & Hh1 & Hm1 & Hp1 & Hn1 & Ha1) (Ht2 & Hh2 & Hm2 & Hp2 & Hn2 & Ha2).
  unfold attach_frame. rewrite Ht2, Ht1, Hh2, Hh1, added_hooks_app, !app_assoc.
  repeat split; congruence.
Qed.

Lemma AddHook_frame (newProbe : Probe) s :
  attach_frame s (AddHook X newProbe s).2 [EvAddHook newProbe (AddHook X newProbe s).1].
Proof.
  unfold AddHook, attach_frame.
  destruct (AddHook_err X (hooks s) newProbe); simpl; rewrite ?app_nil_r; done.
Qed.

(** The inner loop: on success the returned slice is the accumulator extended
    with the probes just added; on failure it is nil. *)
Lemma attachReturnHooks_frame uprobes binPath uid offsets :
  forall i acc s,
    let r := attachReturnHooks X uprobes binPath uid i offsets acc s in
    exists evs, attach_frame s r.2 evs
                /\ match r.1 with
                   | (ids, None) => ids = acc ++ added_hooks evs
                   | (ids, Some _) => ids = []
                   end.
Proof.
  induction offsets as [|offset rest IH]; intros i acc s; cbn [attachReturnHooks].
  - exists []. split; [apply attach_frame_refl|]. simpl. by rewrite app_nil_r.
  - unfold_monad.
    pose proof (AddHook_frame
                  (mkProbe (mkProbeID (returnInfo uprobes) (makeReturnUID X uid i)) binPath offset) s)
      as HA.
    destruct (AddHook X _ s) as [[e|] s1] eqn:HAdd; cbn [fst snd] in *.
    + eexists. split; [exact HA|]. done.
    + destruct (IH (i + 1)
                  (acc ++ [mkProbeID (returnInfo uprobes) (makeReturnUID X uid i)]) s1)
        as (evs & Hfr & Hres).
      eexists. split; [exact (attach_frame_trans _ _ _ _ _ HA Hfr)|].
      destruct (attachReturnHooks X uprobes binPath uid (i + 1) rest _ s1) as [[ids [e|]] s2];
        cbn [fst snd] in *; [done|].
      rewrite Hres, added_hooks_app. simpl. by rewrite <- app_assoc.
Qed.

(** One target function. *)
Lemma attachHooks_function_frame result binPath uid function uprobes acc s :
  let r := attachHooks_function X result binPath uid function uprobes acc s in
  exists evs, attach_frame s r.2 evs
              /\ match r.1 with
                 | (ids, None) =>
                     ids = acc ++ added_hooks evs
                     /\ (functionInfo uprobes <> "" -> ids <> [])
                 | (ids, Some _) => ids = []
                 end.
Proof.
  unfold attachHooks_function. unfold_monad.
  set (first_part := if IncludeReturnLocations (functionsConfig_at X function) then _ else _).
  assert (Hfirst : exists evs, attach_frame s (first_part s).2 evs
                     /\ match (first_part s).1 with
                        | (ids, None) => ids = acc ++ added_hooks evs
                        | (ids, Some _) => ids = []
                        end).
  { subst first_part.
    destruct (IncludeReturnLocations (functionsConfig_at X function)).
    - destruct (decide (returnInfo uprobes = "")).
      + exists []. split; [apply attach_frame_refl|done].
      + apply attachReturnHooks_frame.
    - exists []. split; [apply attach_frame_refl|]. simpl. by rewrite app_nil_r. }
  destruct Hfirst as (evs1 & Hfr1 & Hres1).
  destruct (first_part s) as [[ids1 [e1|]] s1]; cbn [fst snd] in *.
  - exists evs1. split; done.
  - destruct (decide (functionInfo uprobes <> "")) as [Hfi|Hfi].
    + pose proof (AddHook_frame
                    (mkProbe (mkProbeID (functionInfo uprobes) uid) binPath
                       (EntryLocation (Functions_at result function))) s1) as HA.
      destruct (AddHook X _ s1) as [[e|] s2] eqn:HAdd; cbn [fst snd] in *.
      * eexists. split; [exact (attach_frame_trans _ _ _ _ _ Hfr1 HA)|done].
      * eexists. split; [exact (attach_frame_trans _ _ _ _ _ Hfr1 HA)|].
        rewrite added_hooks_app, Hres1. simpl. rewrite <- app_assoc. split; [done|].
        intros _ Hnil. apply app_eq_nil in Hnil as [_ Hnil].
        apply app_eq_nil in Hnil as [_ Hnil]. discriminate.
    + exists evs1. split; [done|]. split; [done|]. intros ?. done.
Qed.

(** The whole [range] over the targets. *)
Lemma attachHooks_range_frame result binPath uid targets :
  forall acc s,
    let r := attachHooks_range X result binPath uid targets acc s in
    exists evs, attach_frame s r.2 evs
                /\ match r.1 with
                   | (ids, None) =>
                       ids = acc ++ added_hooks evs
                       /\ (Exists (fun t => functionInfo t.2 <> "") targets -> ids <> [])
                   | (ids, Some _) => ids = []
                   end.
Proof.
  induction targets as [|[function uprobes] rest IH]; intros acc s; cbn [attachHooks_range].
  - exists []. split; [apply attach_frame_refl|]. simpl. rewrite app_nil_r.
    split; [done|]. intros H. by apply Exists_nil in H.
  - unfold_monad.
    destruct (attachHooks_function_frame result binPath uid function uprobes acc s)
      as (evs1 & Hfr1 & Hres1).
    destruct (attachHooks_function X result binPath uid function uprobes acc s)
      as [[ids1 [e1|]] s1]; cbn [fst snd] in *.
    + exists evs1. split; done.
    + destruct Hres1 as [Hids1 Hne1].
      destruct (IH ids1 s1) as (evs2 & Hfr2 & Hres2).
      destruct (attachHooks_range X result binPath uid rest ids1 s1)
        as [[ids2 [e2|]] s2]; cbn [fst snd] in *.
      * eexists. split; [exact (attach_frame_trans _ _ _ _ _ Hfr1 Hfr2)|done].
      * destruct Hres2 as [Hids2 Hne2].
        eexists. split; [exact (attach_frame_trans _ _ _ _ _ Hfr1 Hfr2)|].
        split.
        -- rewrite Hids2, Hids1, added_hooks_app. by rewrite <- app_assoc.
        -- intros Hex. apply Exists_cons in Hex as [Hhd|Htl].
           ++ simpl in Hhd. specialize (Hne1 Hhd). rewrite Hids2.
              intros Hnil. apply app_eq_nil in Hnil as [? _]. done.
           ++ by apply Hne2.
Qed.

Lemma attachHooks_frame result binPath binID s :
  let r := attachHooks X result binPath binID s in
  exists evs, attach_frame s r.2 evs
              /\ match r.1 with
                 | (ids, None) =>
                     ids = added_hooks evs
                     /\ (Exists (fun t => functionInfo t.2 <> "")
                           (range_functionToProbes X) -> ids <> [])
                 | (ids, Some _) => ids = []
                 end.
Proof. apply (attachHooks_range_frame result binPath (getUID X binID) _ [] s). Qed.

Lemma go_semantics_has_function_probe :
  go_semantics X ->
  Exists (fun t : string * uprobesInfo => functionInfo t.2 <> "") (range_functionToProbes X).
Proof.
  intros (_ & Hperm & _).
  eapply Permutation_Exists; [symmetry; exact Hperm|].
  apply Exists_cons_hd. simpl. unfold connReadProbe. discriminate.
Qed.

End InstallHooks.

(** ** The first-registration callback: success and partial failure *)

Section FirstRegistration.

Context (X : Env).

(** A successful first registration writes the lookup table, attaches the
    hooks, and stores their identifiers in the captured variable. *)
Lemma registerCB_success (probeIDs : nat) (filePath : FilePath) s s1 :
  registerCBCreator X probeIDs filePath s = (None, s1) ->
  exists data evs,
    let key := addInspectionResult_key (ID filePath) in
    let ids := added_hooks evs in
    trace s1 = trace s ++ EvMapPut key None :: evs
    /\ hooks s1 = hooks s ++ ids
    /\ offsetsDataMap s1 = <[key := data]> (offsetsDataMap s)
    /\ heap s1 = <[probeIDs := ids]> (heap s)
    /\ binNoSymbolsMetric s1 = binNoSymbolsMetric s
    /\ (go_semantics X -> ids <> []).
Proof.
  unfold registerCBCreator.
  destruct (os_Open X (HostPath filePath)) as [f|e]; [|unfold_monad; congruence].
  destruct (safeelf_NewFile X f) as [elfFile|e]; [|unfold_monad; congruence].
  destruct (InspectNewProcessBinary X elfFile) as [result|e].
  2: { unfold_monad. destruct (Is e ErrNoSymbols); congruence. }
  unfold bind at 1.
  destruct (addInspectionResultToMap X (ID filePath) result s) as [[e|] sa] eqn:Hadd;
    [unfold_monad; congruence|].
  apply addInspectionResultToMap_ok in Hadd as (data & _ & Hsa).
  unfold bind at 1.
  destruct (attachHooks_frame X result (HostPath filePath) (ID filePath) sa)
    as (evs & Hfr & Hres).
  destruct (attachHooks X result (HostPath filePath) (ID filePath) sa)
    as [[ids [e|]] sb] eqn:Hatt; cbn [fst snd] in *.
  { unfold_monad. destruct (removeInspectionResultFromMap _ sb). congruence. }
  unfold_monad. intros [= <-].
  destruct Hres as [-> Hne].
  destruct Hfr as (Ht & Hh & Hm & Hp & Hn & Ha).
  exists data, evs. cbn zeta. simpl.
  rewrite Ht, Hh, Hm, Hp, Hn, Hsa. simpl.
  rewrite <- app_assoc. simpl.
  repeat split; try done.
  intros Hgo. apply Hne. by apply go_semantics_has_function_probe.
Qed.

(** When a hook cannot be added part-way, the callback deletes the entry it
    wrote to the lookup table and returns the error; the probes added before
    the failure stay attached, and the captured variable is not written. *)
Lemma registerCB_attach_failure (probeIDs : nat) (filePath : FilePath)
    f elfFile result sa sb e s :
  os_Open X (HostPath filePath) = Ok f ->
  safeelf_NewFile X f = Ok elfFile ->
  InspectNewProcessBinary X elfFile = Ok result ->
  addInspectionResultToMap X (ID filePath) result s = (None, sa) ->
  attachHooks X result (HostPath filePath) (ID filePath) sa = ([], Some e, sb) ->
  let r := registerCBCreator X probeIDs filePath s in
  r.1 = Some (Wrapf "error while attaching hooks to %s: %w" e)
  /\ offsetsDataMap r.2 !! addInspectionResult_key (ID filePath) = None
  /\ heap r.2 = heap s
  /\ exists evs, new_events sa sb = evs /\ hooks r.2 = hooks s ++ added_hooks evs.
Proof.
  intros Hopen Helf Hinsp Hadd Hatt r.
  assert (Heq : r = (Some (Wrapf "error while attaching hooks to %s: %w" e),
                     (removeInspectionResultFromMap (ID filePath) sb).2)).
  { subst r. unfold registerCBCreator. rewrite Hopen, Helf, Hinsp.
    unfold bind. rewrite Hadd, Hatt.
    by destruct (removeInspectionResultFromMap (ID filePath) sb) as [[] sc]. }
  rewrite Heq. clear Heq r. cbn [fst snd].
  destruct (removeInspectionResultFromMap_spec (ID filePath) sb)
    as (Hm & Hh & Hp & _ & _ & _).
  destruct (attachHooks_frame X result (HostPath filePath) (ID filePath) sa)
    as (evs & (Ht & Hh' & Hm' & Hp' & _) & _).
  rewrite Hatt in *. cbn [fst snd] in *.
  apply addInspectionResultToMap_ok in Hadd as (data & _ & Hsa).
  split; [done|]. split; [|split].
  - rewrite Hm. apply lookup_delete_eq.
  - rewrite Hp, Hp', Hsa. done.
  - exists evs. split; [by apply new_events_app|].
    rewrite Hh, Hh', Hsa. done.
Qed.

End FirstRegistration.

(** ** The last-unregistration callback *)

Section Teardown.

Context (X : Env).

Lemma detach_frame_refl s : detach_frame s s [].
Proof. unfold detach_frame. simpl. rewrite app_nil_r. repeat split; done. Qed.

Lemma detach_frame_trans s1 s2 s3 evs1 evs2 :
  detach_frame s1 s2 evs1 -> detach_frame s2 s3 evs2 ->
  detach_frame s1 s3 (evs1 ++ evs2).
Proof.
  intros (Ht1 & Hf1 & Hh1 & Hm1 & Hp1 & Hn1 & Ha1) (Ht2 & Hf2 & Hh2 & Hm2 & Hp2 & Hn2 & Ha2).
  unfold detach_frame. rewrite Ht2, Ht1, forallb_app, Hf1, Hf2, app_assoc.
  repeat split; try congruence. intros id Hin. by apply Hh1, Hh2.
Qed.

(** One [DetachHook] and the log line of its failure. *)
Lemma DetachHook_step (probeID : ProbeIdentificationPair) s :
  let r := DetachHook X probeID s in
  detach_frame s r.2 [EvDetachHook probeID r.1]
  /\ (r.1 = None -> probeID ∉ hooks r.2).
Proof.
  unfold DetachHook.
  destruct (DetachHook_err X (hooks s) probeID); simpl.
  - split; [|done]. unfold detach_frame. simpl. repeat split; done.
  - split.
    + unfold detach_frame. simpl. repeat split; try done.
      intros id Hin. by apply list_elem_of_filter in Hin as [_ Hin].
    + intros _ Hin. by apply list_elem_of_filter in Hin as [Hne _].
Qed.

Lemma detachHooks_cons probeID rest s :
  detachHooks X (probeID :: rest) s
  = detachHooks X rest
      (match (DetachHook X probeID s).1 with
       | Some _ => emit (EvLogErrorf "failed detaching hook %s: %s") (DetachHook X probeID s).2
       | None => (DetachHook X probeID s).2
       end).
Proof.
  cbn [detachHooks]. unfold_monad.
  by destruct (DetachHook X probeID s) as [[e|] s1].
Qed.

(** The loop of the callback attempts every probe of the list, in order,
    whatever the outcome of the previous attempts. *)
Lemma detachHooks_spec (ids : list ProbeIdentificationPair) :
  forall s,
    let s' := (detachHooks X ids s).2 in
    exists evs,
      detach_frame s s' evs
      /\ detach_attempts evs = ids
      /\ (forall id, EvDetachHook id None ∈ evs -> id ∉ hooks s')
      /\ (forall id e, EvDetachHook id (Some e) ∈ evs ->
                       EvLogErrorf "failed detaching hook %s: %s" ∈ evs).
Proof.
  induction ids as [|probeID rest IH]; intros s.
  - exists []. split; [apply detach_frame_refl|]. split; [done|].
    split; intros ? ; [|intros ?]; intros Hin; by apply elem_of_nil in Hin.
  - cbn zeta. rewrite detachHooks_cons.
    destruct (DetachHook_step probeID s) as [Hfr Hgone].
    destruct (DetachHook X probeID s) as [r s1] eqn:HD; cbn [fst snd] in *.
    set (logged := match r with
                   | Some _ => emit (EvLogErrorf "failed detaching hook %s: %s") s1
                   | None => s1
                   end).
    set (line := match r with
                 | Some _ => [EvLogErrorf "failed detaching hook %s: %s"]
                 | None => []
                 end).
    assert (Hlog : detach_frame s1 logged line).
    { subst logged line. destruct r; [|apply detach_frame_refl].
      unfold detach_frame. simpl. repeat split; done. }
    destruct (IH logged) as (evs & Hfr2 & Hatt & Hok & Hfail).
    pose proof (detach_frame_trans _ _ _ _ _ Hfr Hlog) as Hfr1.
    exists (([EvDetachHook probeID r] ++ line) ++ evs).
    split; [exact (detach_frame_trans _ _ _ _ _ Hfr1 Hfr2)|].
    split; [|split].
    + unfold detach_attempts in *. rewrite !omap_app, Hatt. subst line.
      by destruct r.
    + intros id Hin. rewrite !elem_of_app in Hin. destruct Hin as [[Hin|Hin]|Hin].
      * apply list_elem_of_singleton in Hin. injection Hin as <- <-.
        intros Hin'. apply Hgone; [done|].
        destruct Hfr2 as (_ & _ & Hsub & _). destruct Hlog as (_ & _ & Hsub' & _).
        by apply Hsub', Hsub.
      * subst line. destruct r; [|by apply elem_of_nil in Hin].
        by apply list_elem_of_singleton in Hin.
      * by apply Hok.
    + intros id e Hin. rewrite !elem_of_app in *. destruct Hin as [[Hin|Hin]|Hin].
      * apply list_elem_of_singleton in Hin. injection Hin as <- <-.
        left. right. subst line. simpl. by apply list_elem_of_singleton.
      * subst line. destruct r; [|by apply elem_of_nil in Hin].
        by apply list_elem_of_singleton in Hin.
      * right. by eapply Hfail.
Qed.

End Teardown.

Section LastUnregistration.

Context (X : Env).

(** The callback returns nil in every state. *)
Lemma unregisterCB_returns_nil (probeIDs : nat) (path : FilePath) s :
  (unregisterCBCreator X probeIDs path s).1 = None.
Proof.
  unfold unregisterCBCreator. unfold_monad.
  destruct (decide _); [done|].
  destruct (removeInspectionResultFromMap (ID path) s) as [[] s1].
  by destruct (detachHooks X _ s1).
Qed.

(** The callback on a non-empty list of recorded probes. *)
Lemma unregisterCB_nonempty (probeIDs : nat) (path : FilePath) ids s :
  heap s !! probeIDs = Some ids -> ids <> [] ->
  (unregisterCBCreator X probeIDs path s).2
  = (detachHooks X ids (removeInspectionResultFromMap (ID path) s).2).2.
Proof.
  intros Hl Hne. unfold unregisterCBCreator. unfold_monad. rewrite Hl. simpl.
  destruct (decide (length ids = 0%nat)) as [Hz|_].
  { by apply length_zero_iff_nil in Hz. }
  destruct (removeInspectionResultFromMap (ID path) s) as [[] s1]. simpl.
  by destruct (detachHooks X ids s1).
Qed.


End LastUnregistration.

Lemma Host_go_semantics : go_semantics Host.env.
Proof.
  split; [|split].
  - apply (bool_decide_unpack _). vm_compute. reflexivity.
  - reflexivity.
  - intros s. reflexivity.
Qed.


(** C1.  (The code departs from the specification here.)  On [Host],
    the binary [/usr/bin/broken] has three hook targets; the hooks of [Read]
    and the return hook of [Write] are added, then adding the entry hook of
    [Write] fails.  When the registration callback returns its error, the
    lookup-table entry is gone, but the three hooks added before the failure
    are still attached, and the captured list is empty, so that the
    unregistration callback would not detach them either.  The same holds
    for the whole [AttachPID] call, which leaves no registry entry. *)
Theorem partial_install_leaves_hooks_attached :
  let fp := mkFilePath "/usr/bin/broken" Host.broken_id 400 in
  let s0 := set_heap [[]] Host.state0 in
  let r := registerCBCreator Host.env 0 fp s0 in
  let a := AttachPID Host.env Host.program 400 Host.world0 in
  r.1 = Some (Wrapf "error while attaching hooks to %s: %w"
                (Wrapf "could not add hook for %q in offset %d due to: %w"
                   (Opaque "invalid argument")))
  /\ hooks r.2 = [ mkProbeID connReadRetProbe "g1003_0";
                   mkProbeID connReadProbe "g1003";
                   mkProbeID connWriteRetProbe "g1003_0" ]
  /\ offsetsDataMap r.2 !! addInspectionResult_key Host.broken_id = None
  /\ heap r.2 = [[]]
  /\ hooks (unregisterCBCreator Host.env 0 fp r.2).2 = hooks r.2
  /\ a.1 = r.1
  /\ registry a.2 !! Host.broken_id = None
  /\ hooks (state a.2) = hooks r.2.
Proof. vm_compute. repeat split; reflexivity. Qed.

(** ** The reconciliation sweep *)

Section Sweep.

Context (X : Env).

Lemma calls_extend_refl w : calls_extend w w [].
Proof. exists []. by rewrite app_nil_r. Qed.

Lemma calls_extend_trans w1 w2 w3 a1 a2 :
  calls_extend w1 w2 a1 -> calls_extend w2 w3 a2 -> calls_extend w1 w3 (a1 ++ a2).
Proof.
  intros (l1 & H1 & <-) (l2 & H2 & <-). exists (l1 ++ l2).
  unfold actions. rewrite omap_app, H2, H1. by rewrite app_assoc.
Qed.

Lemma calls_extend_record c w :
  calls_extend w (record_call c w) (actions [c]).
Proof. by exists [c]. Qed.

Lemma Register_resolved_calls path pid cb1 cb2 cb3 w :
  calls_extend w (Register_resolved path pid cb1 cb2 cb3 w).2 [].
Proof.
  unfold Register_resolved.
  destruct (registry w !! ID path) as [e|].
  - destruct (decide (pid ∈ pids e)); [apply calls_extend_refl|].
    destruct (cb3 path (state w)) as [r s]. simpl.
    by exists [CbAlreadyTracked (ID path)].
  - destruct (cb1 path (state w)) as [[e|] s]; simpl;
      by eexists [CbFirstRegister (ID path) _].
Qed.

Lemma Register_calls namespacedPath pid cb1 cb2 cb3 w :
  calls_extend w (Register X namespacedPath pid cb1 cb2 cb3 w).2 [].
Proof.
  unfold Register.
  pose proof (calls_extend_record (CallRegister namespacedPath pid) w) as H0.
  destruct (resolve_path X namespacedPath pid) as [path|e]; [|exact H0].
  exact (calls_extend_trans _ _ _ _ _ H0 (Register_resolved_calls _ _ _ _ _ _)).
Qed.

Lemma Unregister_calls pid w : calls_extend w (Unregister pid w).2 [].
Proof.
  unfold Unregister.
  pose proof (calls_extend_record (CallUnregister pid) w) as H0.
  set (w0 := record_call (CallUnregister pid) w) in *.
  destruct (owner (registry w0) pid) as [[id e]|]; [|exact H0].
  destruct (decide (pids e ∖ {[pid]} = ∅)); [|exact H0].
  destruct (onLastUnregister e (entry_path e) (state w0)) as [err s]. simpl.
  apply (calls_extend_trans _ _ _ _ _ H0).
  by exists [CbLastUnregister id err].
Qed.

(** [AttachPID] enters once and calls neither itself nor [DetachPID]. *)
Lemma AttachPID_calls p pid w :
  calls_extend w (AttachPID X p pid w).2 [Attach pid].
Proof.
  unfold AttachPID.
  pose proof (calls_extend_record (CallAttachPID pid) w) as H0.
  set (w0 := record_call (CallAttachPID pid) w) in *.
  destruct (cfg_GoTLSExcludeSelf p && (pid =? uint32 (os_Getpid X))); [exact H0|].
  destruct (os_Readlink X _) as [binPath|e]; [|exact H0].
  destruct (Regexp.MatchString internalProcessRegex binPath); [exact H0|].
  unfold new_probeList.
  apply (calls_extend_trans _ _ _ _ _ H0).
  match goal with |- calls_extend _ (Register _ _ _ _ _ _ ?w1).2 _ =>
    destruct (Register_calls binPath pid (registerCBCreator X (length (heap (state w0))))
                (unregisterCBCreator X (length (heap (state w0)))) IgnoreCB w1)
      as (l & Hl & Ha)
  end.
  exists l. split; [|done]. by rewrite Hl.
Qed.

Lemma handleProcessExit_calls p pid w :
  calls_extend w (handleProcessExit p pid w) [Detach pid].
Proof.
  unfold handleProcessExit, DetachPID.
  exact (calls_extend_trans _ _ _ _ _
           (calls_extend_record (CallDetachPID pid) w) (Unregister_calls _ _)).
Qed.

Lemma filter_ext_in {A} (P Q : A -> Prop) `{!forall x, Decision (P x)}
    `{!forall x, Decision (Q x)} (l : list A) :
  (forall x, x ∈ l -> (P x <-> Q x)) -> filter P l = filter Q l.
Proof.
  induction l as [|x l IH]; intros Hext; [done|].
  rewrite !filter_cons.
  assert (Hx : P x <-> Q x) by (apply Hext; left).
  rewrite IH by (intros y Hy; apply Hext; by right).
  destruct (decide (P x)), (decide (Q x)); tauto.
Qed.

(** When no PID is listed twice, the mark pass calls [AttachPID] on the live
    PIDs that are not in the snapshot. *)
Lemma newly_observed_NoDup (live : list Z) :
  forall candidates : gset Z,
    NoDup live ->
    newly_observed candidates live = filter (fun pid => pid ∉ candidates) live.
Proof.
  induction live as [|pid rest IH]; intros candidates Hnd; [done|].
  apply NoDup_cons in Hnd as [Hnotin Hnd]. cbn [newly_observed].
  destruct (decide (pid ∈ candidates)) as [Hin|Hout].
  - rewrite filter_cons_False by tauto.
    rewrite IH by done. apply filter_ext_in. intros x Hx.
    assert (x <> pid) by (intros ->; done). set_solver.
  - rewrite filter_cons_True by done. by rewrite IH.
Qed.

(** A tracked PID that is still alive is neither attached again... *)
Lemma newly_observed_fresh (live : list Z) :
  forall (candidates : gset Z) pid,
    NoDup live -> pid ∈ candidates -> pid ∉ newly_observed candidates live.
Proof.
  intros candidates pid Hnd Hin. rewrite newly_observed_NoDup by done.
  intros H. apply list_elem_of_filter in H as [H _]. done.
Qed.

(** The snapshot holds the PIDs of all entries. *)
Lemma elem_of_GetRegisteredProcesses (w : World) (pid : Z) :
  pid ∈ GetRegisteredProcesses w
  <-> exists id e, registry w !! id = Some e /\ pid ∈ pids e.
Proof.
  unfold GetRegisteredProcesses. rewrite elem_of_union_list. split.
  - intros (S & HS & Hpid). apply list_elem_of_fmap in HS as ([id e] & -> & Hkv).
    apply elem_of_map_to_list in Hkv. eauto.
  - intros (id & e & Hlook & Hpid). exists (pids e). split; [|done].
    apply list_elem_of_fmap. exists (id, e). split; [done|].
    by apply elem_of_map_to_list.
Qed.

Lemma sync_visit_tracked (p : goTLSProgram) (candidates : gset Z) (w : World) (pid : Z) :
  uint32 pid ∈ candidates ->
  sync_visit X p (candidates, w) pid = (candidates ∖ {[uint32 pid]}, w).
Proof. intros Hin. unfold sync_visit. by destruct (decide _). Qed.

Lemma sync_visit_untracked (p : goTLSProgram) (candidates : gset Z) (w : World) (pid : Z) :
  uint32 pid ∉ candidates ->
  sync_visit X p (candidates, w) pid = (candidates, (AttachPID X p (uint32 pid) w).2).
Proof. intros Hout. unfold sync_visit. by destruct (decide _). Qed.

(** The enumeration of the live processes. *)
Lemma mark_pass (p : goTLSProgram) (procs : list Z) :
  forall (candidates : gset Z) (w : World),
    let r := foldl (sync_visit X p) (candidates, w) procs in
    r.1 = candidates ∖ list_to_set (uint32 <$> procs)
    /\ calls_extend w r.2 (Attach <$> newly_observed candidates (uint32 <$> procs)).
Proof.
  induction procs as [|pid rest IH]; intros candidates w; cbn [foldl fmap list_fmap].
  - split; [set_solver|apply calls_extend_refl].
  - cbn [newly_observed].
    destruct (decide (uint32 pid ∈ candidates)) as [Hin|Hout].
    + rewrite (sync_visit_tracked p candidates w pid Hin).
      destruct (IH (candidates ∖ {[uint32 pid]}) w) as [Hc Hl].
      split; [|exact Hl]. rewrite Hc, list_to_set_cons. set_solver.
    + rewrite (sync_visit_untracked p candidates w pid Hout).
      destruct (IH candidates (AttachPID X p (uint32 pid) w).2) as [Hc Hl].
      split.
      * rewrite Hc, list_to_set_cons. set_solver.
      * exact (calls_extend_trans _ _ _ _ _ (AttachPID_calls p (uint32 pid) w) Hl).
Qed.

(** The world the enumeration leaves: [AttachPID] has run, in order, on the
    PIDs the mark pass attaches, and nothing else has. *)
Lemma mark_pass_world (p : goTLSProgram) (procs : list Z) :
  forall (candidates : gset Z) (w : World),
    (foldl (sync_visit X p) (candidates, w) procs).2
    = foldl (fun w pid => (AttachPID X p pid w).2) w
        (newly_observed candidates (uint32 <$> procs)).
Proof.
  induction procs as [|pid rest IH]; intros candidates w; cbn [foldl fmap list_fmap];
    [done|].
  cbn [newly_observed].
  destruct (decide (uint32 pid ∈ candidates)) as [Hin|Hout].
  - rewrite (sync_visit_tracked p candidates w pid Hin). apply IH.
  - rewrite (sync_visit_untracked p candidates w pid Hout). cbn [foldl]. apply IH.
Qed.

(** The loop over the remaining candidates. *)
Lemma sweep_pass (p : goTLSProgram) (stale : list Z) :
  forall w : World,
    calls_extend w (foldl (fun w pid => handleProcessExit p pid w) w stale)
      (Detach <$> stale).
Proof.
  induction stale as [|pid rest IH]; intros w; cbn [foldl fmap list_fmap].
  - apply calls_extend_refl.
  - exact (calls_extend_trans _ _ _ _ _ (handleProcessExit_calls p pid w) (IH _)).
Qed.

(** C3.  One [sync] is a mark-and-sweep over a snapshot of the registry.
    With [candidates] the tracked PIDs at entry, [live] the PIDs enumerated
    on the host and [stale] the candidates not enumerated, in the order the
    final loop visits them: the attach and detach calls of the sweep are, in
    order, one [AttachPID] for each live PID the mark pass of the
    specification attaches (a live PID found in the candidates is only struck
    off), followed by one [DetachPID] for each stale PID.  Every stale PID is
    visited exactly once; and when no PID is enumerated twice, the attached
    PIDs are exactly the live ones outside the snapshot, so that nothing is
    called for a tracked PID that is still alive.  The calls are made, not
    only logged: the world [sync] returns (registry, hooks, lookup table,
    counters, call log) is the one obtained by running [AttachPID] on these
    live PIDs and then [DetachPID] on the stale ones, in this order, each on
    the world its predecessor left, and nothing else. *)
Theorem sync_mark_and_sweep (p : goTLSProgram) (w : World) :
  go_semantics X ->
  let candidates := GetRegisteredProcesses w in
  let live := uint32 <$> WithAllProcs_pids X (procRoot p) in
  let stale := range_pids X (candidates ∖ list_to_set live) in
  let acts := actions (new_calls w (sync X p w)) in
  acts = (Attach <$> newly_observed candidates live) ++ (Detach <$> stale)
  /\ sync X p w
     = foldl (fun w pid => (DetachPID p pid w).2)
         (foldl (fun w pid => (AttachPID X p pid w).2) w
            (newly_observed candidates live))
         stale
  /\ NoDup stale
  /\ (forall pid, pid ∈ stale <-> pid ∈ candidates /\ pid ∉ live)
  /\ (forall pid, Detach pid ∈ acts <-> pid ∈ candidates /\ pid ∉ live)
  /\ (NoDup live ->
      newly_observed candidates live = filter (fun pid => pid ∉ candidates) live
      /\ forall pid, pid ∈ candidates -> pid ∈ live ->
                     (Attach pid ∉ acts) /\ (Detach pid ∉ acts)).
Proof.
  intros (_ & _ & Hrange) candidates live stale acts.
  assert (Hstale : forall pid, pid ∈ stale <-> pid ∈ candidates /\ pid ∉ live).
  { intros pid. subst stale. rewrite (Hrange _), elem_of_elements.
    rewrite elem_of_difference, elem_of_list_to_set. done. }
  assert (Hacts : acts = (Attach <$> newly_observed candidates live) ++ (Detach <$> stale)).
  { subst acts. unfold sync. fold candidates.
    destruct (mark_pass p (WithAllProcs_pids X (procRoot p)) candidates w) as [Hc Hl].
    fold live in Hc, Hl.
    destruct (foldl (sync_visit X p) (candidates, w) (WithAllProcs_pids X (procRoot p)))
      as [remaining w1]. cbn [fst snd] in *. subst remaining. fold stale.
    destruct (calls_extend_trans _ _ _ _ _ Hl (sweep_pass p stale w1)) as (l & Hcalls & Hal).
    by rewrite (new_calls_app _ _ _ Hcalls). }
  assert (Hdetach : forall pid, Detach pid ∈ acts <-> pid ∈ candidates /\ pid ∉ live).
  { intros pid. rewrite Hacts, elem_of_app, <- Hstale. split.
    - intros [H|H].
      + apply list_elem_of_fmap in H as (q & Hq & _). discriminate.
      + apply list_elem_of_fmap in H as (q & [= ->] & Hq). done.
    - intros H. right. apply list_elem_of_fmap. eauto. }
  split; [done|]. split; [|split; [|split; [done|split; [done|]]]].
  - unfold sync. fold candidates.
    pose proof (mark_pass_world p (WithAllProcs_pids X (procRoot p)) candidates w) as Hw.
    destruct (mark_pass p (WithAllProcs_pids X (procRoot p)) candidates w) as [Hc _].
    fold live in Hc, Hw.
    destruct (foldl (sync_visit X p) (candidates, w) (WithAllProcs_pids X (procRoot p)))
      as [remaining w1]. cbn [fst snd] in *. subst remaining w1. done.
  - subst stale. rewrite (Hrange _). apply NoDup_elements.
  - intros Hnd. split; [by apply newly_observed_NoDup|].
    intros pid Hc Hlive. split.
    + rewrite Hacts, elem_of_app. intros [H|H].
      * apply list_elem_of_fmap in H as (q & [= ->] & Hq).
        by apply (newly_observed_fresh live candidates q).
      * apply list_elem_of_fmap in H as (q & Hq & _). discriminate.
    + rewrite Hdetach. tauto.
Qed.

End Sweep.

(** Processes 100 and 101 of [server] are tracked; the host lists 100, 200
    and 300.  The sweep attaches 200 and 300 (both refused) and detaches 101:
    afterwards 100 alone is tracked. *)
Lemma sync_mark_and_sweep_witness :
  let w := (AttachPID Host.env Host.program 101
              (AttachPID Host.env Host.program 100 Host.world0).2).2 in
  let w' := sync Host.env Host.program w in
  actions (new_calls w w') = [Attach 200; Attach 300; Detach 101]
  /\ w' = (DetachPID Host.program 101
             (AttachPID Host.env Host.program 300
                (AttachPID Host.env Host.program 200 w).2).2).2
  /\ elements (GetRegisteredProcesses w) = [101; 100]
  /\ elements (GetRegisteredProcesses w') = [100]
  /\ length (hooks (state w')) = 6%nat.
Proof.
  intros w w'. subst w'.
  destruct (sync_mark_and_sweep Host.env Host.program w Host_go_semantics)
    as (H & Hw & _).
  assert (Hn : newly_observed (GetRegisteredProcesses w)
                 (uint32 <$> WithAllProcs_pids Host.env (procRoot Host.program))
               = [200; 300]) by (vm_compute; reflexivity).
  assert (Hs : range_pids Host.env
                 (GetRegisteredProcesses w
                    ∖ list_to_set (uint32 <$> WithAllProcs_pids Host.env
                                                (procRoot Host.program)))
               = [101]) by (vm_compute; reflexivity).
  rewrite Hn, Hs in Hw.
  split; [rewrite H, Hn, Hs; reflexivity|]. split; [exact Hw|].
  split; [vm_compute; reflexivity|]. split; vm_compute; reflexivity.
Defined.

(** ** The registry: callbacks and transitions of the interested set *)

Section RegistryTransitions.

Context (X : Env).


Lemma owner_None (r : gmap PathIdentifier Entry) (pid : Z) id e :
  owner r pid = None -> r !! id = Some e -> pid ∉ pids e.
Proof.
  unfold owner. intros H Hlook Hpid.
  assert (Hin : (id, e) ∈ filter (fun kv : PathIdentifier * Entry => pid ∈ pids kv.2)
                         (map_to_list r)).
  { apply list_elem_of_filter. split; [done|]. by apply elem_of_map_to_list. }
  destruct (filter _ (map_to_list r)); [by apply elem_of_nil in Hin|discriminate].
Qed.

















End RegistryTransitions.

(** Two processes of one binary come and go, then one comes back: two
    transitions to non-empty, one to empty, and as many callbacks. *)
Example registry_run_two_processes :
  let first := fun _ : FilePath => ret (A := option error) None in
  let ops := [ OpRegister "/usr/bin/server" 100 first IgnoreCB IgnoreCB;
               OpRegister "/usr/bin/server" 101 first IgnoreCB IgnoreCB;
               OpRegister "/usr/bin/server" 100 first IgnoreCB IgnoreCB;
               OpUnregister 100;
               OpUnregister 300;
               OpUnregister 101;
               OpRegister "/usr/bin/server" 100 first IgnoreCB IgnoreCB ] in
  let log := calls (run Host.env Host.world0 ops) in
  count (is_first_register Host.server_id) log = 2%nat
  /\ transitions Host.env (becomes_interested Host.server_id) Host.world0 ops = 2%nat
  /\ count (is_last_unregister Host.server_id) log = 1%nat
  /\ transitions Host.env (becomes_idle Host.server_id) Host.world0 ops = 1%nat.
Proof. vm_compute. repeat split; reflexivity. Qed.

(** ** Hooks recorded by the attacher and their removal *)

Section RecordedHooks.

Context (X : Env).

Lemma addInspectionResultToMap_heap binID result s :
  heap (addInspectionResultToMap X binID result s).2 = heap s.
Proof.
  unfold addInspectionResultToMap.
  destruct (inspectionResultToProbeData X result) as [data|e]; [|done].
  unfold_monad. unfold Map_Put.
  by destruct (Put_err X (offsetsDataMap s) _).
Qed.

(** The first-registration callback writes the captured variable on success
    and leaves every variable alone on failure. *)
Lemma registerCB_heap (probeIDs : nat) (filePath : FilePath) s :
  let r := registerCBCreator X probeIDs filePath s in
  match r.1 with
  | None => exists ids, heap r.2 = <[probeIDs := ids]> (heap s)
  | Some _ => heap r.2 = heap s
  end.
Proof.
  cbn zeta.
  destruct (registerCBCreator X probeIDs filePath s) as [[e|] s1] eqn:Hreg; cbn [fst snd].
  2: { apply registerCB_success in Hreg as (data & evs & Hreg). cbn zeta in Hreg.
       destruct Hreg as (_ & _ & _ & Hheap & _). eauto. }
  revert Hreg. unfold registerCBCreator.
  destruct (os_Open X (HostPath filePath)) as [f|e0]; [|unfold_monad; congruence].
  destruct (safeelf_NewFile X f) as [elfFile|e0]; [|unfold_monad; congruence].
  destruct (InspectNewProcessBinary X elfFile) as [result|e0].
  2: { unfold_monad. destruct (Is e0 ErrNoSymbols); intros [= _ <-]; done. }
  unfold bind at 1.
  pose proof (addInspectionResultToMap_heap (ID filePath) result s) as Hadd.
  destruct (addInspectionResultToMap X (ID filePath) result s) as [[e0|] sa];
    cbn [fst snd] in Hadd.
  { unfold_monad. intros [= _ <-]. done. }
  unfold bind at 1.
  destruct (attachHooks_frame X result (HostPath filePath) (ID filePath) sa)
    as (evs & (_ & _ & _ & Hp & _) & _).
  destruct (attachHooks X result (HostPath filePath) (ID filePath) sa)
    as [[ids [e0|]] sb]; cbn [fst snd] in *.
  - unfold bind at 1.
    destruct (removeInspectionResultFromMap_spec (ID filePath) sb) as (_ & _ & Hp' & _).
    destruct (removeInspectionResultFromMap (ID filePath) sb) as [[] sc]; cbn [fst snd] in *.
    unfold ret. intros [= _ <-]. congruence.
  - unfold_monad. discriminate.
Qed.

Lemma filter_not_elem_cons (id : ProbeIdentificationPair) ids
    (hs : list ProbeIdentificationPair) :
  filter (fun h => h ∉ ids) (filter (fun h => h <> id) hs)
  = filter (fun h => h ∉ id :: ids) hs.
Proof.
  rewrite list_filter_filter. apply list_filter_iff. intros h.
  rewrite not_elem_of_cons. tauto.
Qed.

Lemma filter_not_elem_nil (hs : list ProbeIdentificationPair) :
  filter (fun h => h ∉ ([] : list ProbeIdentificationPair)) hs = hs.
Proof.
  induction hs as [|h hs IH]; [done|].
  rewrite filter_cons_True by apply not_elem_of_nil. by rewrite IH.
Qed.

(** What the loop of the unregistration callback leaves attached when the
    manager detaches every probe it is asked to. *)
Lemma detachHooks_never_fails (ids : list ProbeIdentificationPair) :
  detach_never_fails X ->
  forall s, hooks (detachHooks X ids s).2 = filter (fun h => h ∉ ids) (hooks s).
Proof.
  intros Hok. induction ids as [|id rest IH]; intros s.
  - simpl. symmetry. apply filter_not_elem_nil.
  - rewrite detachHooks_cons. unfold DetachHook. rewrite (Hok (hooks s) id). cbn [fst snd].
    rewrite IH. simpl. apply filter_not_elem_cons.
Qed.

Lemma detach_attempts_elem (evs : list Event) (h : ProbeIdentificationPair) :
  h ∈ detach_attempts evs -> exists r, EvDetachHook h r ∈ evs.
Proof.
  unfold detach_attempts. intros Hin. apply list_elem_of_omap in Hin as (e & He & Hsome).
  destruct e; try discriminate. injection Hsome as ->. eauto.
Qed.

(** The unregistration callback, for whatever the captured variable holds:
    it leaves the variables alone, adds no hook, calls [DetachHook] on every
    recorded probe, and leaves none of them attached if no call fails. *)
Lemma unregisterCB_frame (probeIDs : nat) (path : FilePath) s :
  let s' := (unregisterCBCreator X probeIDs path s).2 in
  heap s' = heap s
  /\ (forall h, h ∈ hooks s' -> h ∈ hooks s)
  /\ (exists evs, trace s' = trace s ++ evs
                  /\ forall ids h, heap s !! probeIDs = Some ids -> h ∈ ids ->
                                   exists r, EvDetachHook h r ∈ evs)
  /\ (detach_never_fails X ->
      forall ids h, heap s !! probeIDs = Some ids -> h ∈ ids -> h ∉ hooks s').
Proof.
  cbn zeta.
  destruct (heap s !! probeIDs) as [ids|] eqn:Hcell.
  - destruct ids as [|id0 rest].
    + assert (Heq : unregisterCBCreator X probeIDs path s = (None, s)).
      { unfold unregisterCBCreator. unfold_monad. by rewrite Hcell. }
      rewrite Heq. cbn [snd]. split; [done|]. split; [done|]. split.
      * exists []. rewrite app_nil_r. split; [done|].
        intros ids h [= <-] Hin. by apply elem_of_nil in Hin.
      * intros _ ids h [= <-] Hin. by apply elem_of_nil in Hin.
    + rewrite (unregisterCB_nonempty X probeIDs path (id0 :: rest) s Hcell) by done.
      destruct (removeInspectionResultFromMap_spec (ID path) s)
        as (_ & Hh & Hp & _ & _ & dr & Ht & _).
      set (sa := (removeInspectionResultFromMap (ID path) s).2) in *.
      destruct (detachHooks_spec X (id0 :: rest) sa) as (evs & Hfr & Hatt & _).
      destruct Hfr as (Ht' & _ & Hsub & _ & Hp' & _).
      split; [congruence|]. split; [|split].
      * intros h Hin. rewrite <- Hh. by apply Hsub.
      * eexists. split; [rewrite Ht', Ht, <- app_assoc; reflexivity|].
        intros ids h [= <-] Hin. rewrite <- Hatt in Hin.
        apply detach_attempts_elem in Hin as [r Hr]. exists r.
        apply elem_of_app. by right.
      * intros Hok ids h [= <-] Hin.
        rewrite (detachHooks_never_fails (id0 :: rest) Hok sa).
        intros Hf. apply list_elem_of_filter in Hf as [Hf _]. done.
  - assert (Heq : unregisterCBCreator X probeIDs path s = (None, s)).
    { unfold unregisterCBCreator. unfold_monad. by rewrite Hcell. }
    rewrite Heq. cbn [snd]. split; [done|]. split; [done|]. split; [|done].
    exists []. by rewrite app_nil_r.
Qed.








End RecordedHooks.

(** ** Shutdown *)

Module LifecycleFacts.
Import Lifecycle.

Section Shutdown.

Context (X : Env) (p : goTLSProgram).

Lemma shutdown_events_snoc h e :
  shutdown_events (h ++ [e])
  = shutdown_events h ++ (if is_shutdown_event e then [e] else []).
Proof. unfold shutdown_events. rewrite List.filter_app. simpl. by destruct (is_shutdown_event e). Qed.

Lemma Inv_started w : Inv (started w).
Proof.
  constructor; simpl; try done.
  - intros _. by left.
  - intros _. by left.
Qed.

Ltac inv_contradiction :=
  match goal with
  | H : ?lp <> Selecting -> NotCalled <> NotCalled |- _ =>
      exfalso; apply H; [discriminate | reflexivity]
  | H : Returned = Returned -> ?lp = Exited |- _ =>
      specialize (H eq_refl); discriminate
  | H : true = true -> _ \/ _ |- _ =>
      specialize (H eq_refl); intuition discriminate
  end.

Lemma fire_Inv l sys sys' : Inv sys -> fire X p l sys = Some sys' -> Inv sys'.
Proof.
  intros [Hd Hw Hr Hl He Hx Hy Hdr Hc] Hfire.
  destruct sys as [sp lp dc n se sx jobs w bc h]. simpl in *.
  destruct l; simpl in Hfire.
  - destruct sp; try discriminate. injection Hfire as <-.
    destruct lp; try inv_contradiction.
    constructor; simpl; try done.
    rewrite shutdown_events_snoc, He. done.
  - destruct sp; try discriminate.
    destruct (n =? 0) eqn:Hn; try discriminate. injection Hfire as <-.
    apply Z.eqb_eq in Hn. subst n.
    destruct lp; try discriminate.
    constructor; simpl; try done.
    + rewrite shutdown_events_snoc, He. done.
    + intros _. destruct (Hdr eq_refl) as [-> [pre ->]]. split; [done|].
      exists pre. simpl. by rewrite <- app_assoc.
  - destruct lp; try discriminate. injection Hfire as <-.
    constructor; simpl; try done.
    rewrite shutdown_events_snoc, He. simpl. by rewrite app_nil_r.
  - destruct lp; try discriminate. destruct dc; try discriminate.
    injection Hfire as <-.
    destruct sp; try discriminate.
    + constructor; simpl; try done. intros _. right. by left.
      intros _. right. by left.
    + specialize (Hr eq_refl). discriminate.
  - destruct lp; simpl in Hfire; try discriminate.
    + injection Hfire as <-. destruct sp; try inv_contradiction.
      constructor; simpl; try done; try (intros _; tauto).
      rewrite shutdown_events_snoc, He. done.
    + injection Hfire as <-. destruct sp; try inv_contradiction.
      constructor; simpl; try done; try (intros _; tauto).
      rewrite shutdown_events_snoc, He. done.
    + injection Hfire as <-. destruct sp; try inv_contradiction.
      constructor; simpl; try done.
      * rewrite shutdown_events_snoc, He. done.
      * intros Hs. destruct (Hx Hs) as [?|[?|?]]; discriminate.
    + destruct jobs; try discriminate.
      injection Hfire as <-. destruct sp; try inv_contradiction.
      constructor; simpl; try done.
      * rewrite shutdown_events_snoc, He. done.
      * intros Hs. destruct (Hx Hs) as [?|[?|?]]; discriminate.
      * intros Hs. destruct (Hy Hs) as [?|[?|[?|?]]]; discriminate.
      * intros _. split; [done|]. by exists h.
    + injection Hfire as <-. destruct sp; try inv_contradiction.
      constructor; simpl; try done.
      * rewrite shutdown_events_snoc, He. done.
      * intros Hs. destruct (Hx Hs) as [?|[?|?]]; discriminate.
      * intros Hs. destruct (Hy Hs) as [?|[?|[?|?]]]; discriminate.
      * intros _. destruct (Hdr eq_refl) as [-> [pre ->]]. split; [done|].
        exists pre. simpl. by rewrite <- app_assoc.
      * intros _. by exists w.
    + injection Hfire as <-. destruct sp; try inv_contradiction.
      constructor; simpl; try done.
      * lia.
      * rewrite shutdown_events_snoc, He. done.
      * intros Hs. destruct (Hx Hs) as [?|[?|?]]; discriminate.
      * intros Hs. destruct (Hy Hs) as [?|[?|[?|?]]]; discriminate.
      * intros _. destruct (Hdr eq_refl) as [-> [pre ->]]. split; [done|].
        exists pre. simpl. by rewrite <- app_assoc.
  - destruct (job_subscribed j _) eqn:Hsub; try discriminate.
    injection Hfire as <-. simpl in Hsub.
    constructor; simpl; try done.
    + rewrite shutdown_events_snoc, He. simpl. by rewrite app_nil_r.
    + intros Hdrained. exfalso.
      destruct j; simpl in Hsub; subst.
      * destruct (Hx eq_refl) as [H1|[H1|H1]]; subst lp; discriminate.
      * destruct (Hy eq_refl) as [H1|[H1|[H1|H1]]]; subst lp; discriminate.
  - destruct (jobs !! k) as [j|] eqn:Hk; try discriminate.
    injection Hfire as <-.
    constructor; simpl; try done.
    + rewrite shutdown_events_snoc, He. simpl. by rewrite app_nil_r.
    + intros Hdrained. destruct (Hdr Hdrained) as [-> _]. done.
    + intros Hcl. assert (Hdrained : handlers_drained lp = true) by (by destruct lp).
      destruct (Hdr Hdrained) as [-> _]. done.
Qed.

Lemma exec_Inv schedule :
  forall sys sys', Inv sys -> exec X p sys schedule = Some sys' -> Inv sys'.
Proof.
  induction schedule as [|l rest IH]; intros sys sys' Hinv Hexec; simpl in Hexec.
  - by injection Hexec as <-.
  - destruct (fire X p l sys) as [sys1|] eqn:Hfire; [|discriminate].
    apply (IH sys1); [|done]. by apply (fire_Inv l sys).
Qed.






End Shutdown.

End LifecycleFacts.


(** With [GoTLSExcludeSelf] unset, the self check is skipped and the agent's
    own PID goes through the remaining checks like any other. *)
Example AttachPID_self_exclusion_is_configurable :
  let p := mkGoTLSProgram false "/proc" in
  self_excluded Host.env p 4242 = false
  /\ (AttachPID Host.env p 4242 Host.world0).1 = None
  /\ elements (interested (AttachPID Host.env p 4242 Host.world0).2 Host.server_id) = [4242].
Proof. vm_compute. repeat split; reflexivity. Qed.

(** * Further properties of the code *)

(** ** Lookup-table keys never collide *)

Section KeyBits.

Lemma mask_testbit (w j m : Z) :
  0 <= w -> 0 <= j -> 0 <= m ->
  Z.testbit (Z.shiftl (Z.ones w) j) m = (j <=? m) && (m <? j + w).
Proof.
  intros Hw Hj Hm. rewrite Z.shiftl_spec by lia. rewrite Z.testbit_ones by lia.
  destruct (Z.leb_spec j m), (Z.ltb_spec m (j + w)),
    (Z.leb_spec 0 (m - j)), (Z.ltb_spec (m - j) w); simpl; try reflexivity; lia.
Qed.

(** The bits of the major number: bits 8..19 and 44..63 of the device. *)
Lemma unix_Major_testbit (dev k : Z) :
  0 <= k ->
  Z.testbit (unix_Major dev) k
  = if k <? 12 then Z.testbit dev (k + 8)
    else if k <? 32 then Z.testbit dev (k + 32) else false.
Proof.
  intros Hk. unfold unix_Major, uint32.
  change 0x00000000000fff00 with (Z.shiftl (Z.ones 12) 8).
  change 0xfffff00000000000 with (Z.shiftl (Z.ones 20) 44).
  rewrite Z.lor_spec. rewrite !Z.testbit_mod_pow2 by lia.
  rewrite !Z.shiftr_spec by lia. rewrite !Z.land_spec.
  rewrite !mask_testbit by lia.
  destruct (Z.ltb_spec k 12), (Z.ltb_spec k 32); try lia.
  - replace (8 <=? k + 8) with true by (symmetry; apply Z.leb_le; lia).
    replace (k + 8 <? 8 + 12) with true by (symmetry; apply Z.ltb_lt; lia).
    replace (44 <=? k + 32) with false by (symmetry; apply Z.leb_gt; lia).
    simpl. by rewrite !andb_true_r, andb_false_r, orb_false_r.
  - replace (k + 8 <? 8 + 12) with false by (symmetry; apply Z.ltb_ge; lia).
    replace (44 <=? k + 32) with true by (symmetry; apply Z.leb_le; lia).
    replace (k + 32 <? 44 + 20) with true by (symmetry; apply Z.ltb_lt; lia).
    simpl. by rewrite !andb_true_r, !andb_false_r.
Qed.

(** The bits of the minor number: bits 0..7 and 20..43 of the device. *)
Lemma unix_Minor_testbit (dev k : Z) :
  0 <= k ->
  Z.testbit (unix_Minor dev) k
  = if k <? 8 then Z.testbit dev k
    else if k <? 32 then Z.testbit dev (k + 12) else false.
Proof.
  intros Hk. unfold unix_Minor, uint32.
  change 0x00000000000000ff with (Z.shiftl (Z.ones 8) 0).
  change 0x00000ffffff00000 with (Z.shiftl (Z.ones 24) 20).
  rewrite Z.lor_spec. rewrite !Z.testbit_mod_pow2 by lia.
  rewrite !Z.shiftr_spec by lia. rewrite !Z.land_spec.
  rewrite !mask_testbit by lia. rewrite Z.add_0_r.
  destruct (Z.ltb_spec k 8), (Z.ltb_spec k 32); try lia.
  - replace (0 <=? k) with true by (symmetry; apply Z.leb_le; lia).
    replace (k <? 0 + 8) with true by (symmetry; apply Z.ltb_lt; lia).
    replace (20 <=? k + 12) with false by (symmetry; apply Z.leb_gt; lia).
    simpl. by rewrite !andb_true_r, andb_false_r, orb_false_r.
  - replace (k <? 0 + 8) with false by (symmetry; apply Z.ltb_ge; lia).
    replace (20 <=? k + 12) with true by (symmetry; apply Z.leb_le; lia).
    replace (k + 12 <? 20 + 24) with true by (symmetry; apply Z.ltb_lt; lia).
    simpl. by rewrite !andb_true_r, !andb_false_r.
Qed.

Lemma uint64_high_bits (dev n : Z) :
  0 <= dev < 2 ^ 64 -> 64 <= n -> Z.testbit dev n = false.
Proof.
  intros Hd Hn. rewrite <- (Z.mod_small dev (2 ^ 64)) by lia.
  apply Z.mod_pow2_bits_high. lia.
Qed.

(** X1.  Two binaries whose device numbers are 64-bit values get the same
    key of the lookup table only if they have the same device and the same
    inode: the major and minor numbers together keep every bit of the
    device.  Both numbers fit 32 bits. *)
Theorem lookup_key_injective (a b : PathIdentifier) :
  0 <= Dev a < 2 ^ 64 ->
  0 <= Dev b < 2 ^ 64 ->
  addInspectionResult_key a = addInspectionResult_key b ->
  a = b
  /\ 0 <= Id_major (addInspectionResult_key a) < 2 ^ 32
  /\ 0 <= Id_minor (addInspectionResult_key a) < 2 ^ 32.
Proof.
  intros Ha Hb Hkey. split.
  - injection Hkey as Hmaj Hmin Hino.
    destruct a as [da ia], b as [db ib]. simpl in *. f_equal; [|done].
    apply Z.bits_inj'. intros n Hn.
    destruct (Z.lt_ge_cases n 8) as [H8|H8].
    { pose proof (unix_Minor_testbit da n Hn) as H1.
      pose proof (unix_Minor_testbit db n Hn) as H2.
      rewrite Hmin in H1. rewrite H1 in H2.
      destruct (Z.ltb_spec n 8); [done|lia]. }
    destruct (Z.lt_ge_cases n 20) as [H20|H20].
    { pose proof (unix_Major_testbit da (n - 8) ltac:(lia)) as H1.
      pose proof (unix_Major_testbit db (n - 8) ltac:(lia)) as H2.
      rewrite Hmaj in H1. rewrite H1 in H2.
      destruct (Z.ltb_spec (n - 8) 12); [|lia].
      by replace (n - 8 + 8) with n in H2 by lia. }
    destruct (Z.lt_ge_cases n 44) as [H44|H44].
    { pose proof (unix_Minor_testbit da (n - 12) ltac:(lia)) as H1.
      pose proof (unix_Minor_testbit db (n - 12) ltac:(lia)) as H2.
      rewrite Hmin in H1. rewrite H1 in H2.
      destruct (Z.ltb_spec (n - 12) 8); [lia|].
      destruct (Z.ltb_spec (n - 12) 32); [|lia].
      by replace (n - 12 + 12) with n in H2 by lia. }
    destruct (Z.lt_ge_cases n 64) as [H64|H64].
    { pose proof (unix_Major_testbit da (n - 32) ltac:(lia)) as H1.
      pose proof (unix_Major_testbit db (n - 32) ltac:(lia)) as H2.
      rewrite Hmaj in H1. rewrite H1 in H2.
      destruct (Z.ltb_spec (n - 32) 12); [lia|].
      destruct (Z.ltb_spec (n - 32) 32); [|lia].
      by replace (n - 32 + 32) with n in H2 by lia. }
    by rewrite !uint64_high_bits.
  - assert (Hbound : forall x y, 0 <= Z.lor (uint32 x) (uint32 y) < 2 ^ 32).
    { intros x y. unfold uint32.
      pose proof (Z.mod_pos_bound x (2 ^ 32) ltac:(lia)).
      pose proof (Z.mod_pos_bound y (2 ^ 32) ltac:(lia)).
      split; [apply Z.lor_nonneg; lia|].
      destruct (Z.eq_dec (Z.lor (x mod 2 ^ 32) (y mod 2 ^ 32)) 0) as [->|Hnz]; [lia|].
      apply Z.log2_lt_pow2; [pose proof (Z.lor_nonneg (x mod 2 ^ 32) (y mod 2 ^ 32)); lia|].
      rewrite Z.log2_lor by lia.
      apply Z.max_lub_lt.
      - destruct (Z.eq_dec (x mod 2 ^ 32) 0) as [->|?]; [simpl; lia|].
        apply Z.log2_lt_pow2; lia.
      - destruct (Z.eq_dec (y mod 2 ^ 32) 0) as [->|?]; [simpl; lia|].
        apply Z.log2_lt_pow2; lia. }
    split; apply Hbound.
Qed.

End KeyBits.

Lemma lookup_key_injective_witness :
  addInspectionResult_key Host.server_id = mkTlsBinaryId 8 3 1001
  /\ (Host.server_id = Host.server_id
      /\ 0 <= Id_major (addInspectionResult_key Host.server_id) < 2 ^ 32
      /\ 0 <= Id_minor (addInspectionResult_key Host.server_id) < 2 ^ 32).
Proof.
  split; [reflexivity|].
  apply (lookup_key_injective Host.server_id Host.server_id); [simpl; lia|simpl; lia|reflexivity].
Defined.

(** ** The probes [attachHooks] installs *)

Section AttachedProbes.

Context (X : Env).

Lemma AddHook_error (newProbe : Probe) s e s' :
  AddHook X newProbe s = (Some e, s') -> AddHook_err X (hooks s) newProbe = Some e.
Proof. unfold AddHook. destruct (AddHook_err X (hooks s) newProbe); congruence. Qed.

Lemma go_names_distinct :
  go_semantics X ->
  ReadGoTLSFunc X <> WriteGoTLSFunc X
  /\ ReadGoTLSFunc X <> CloseGoTLSFunc X
  /\ WriteGoTLSFunc X <> CloseGoTLSFunc X.
Proof.
  intros (Hnd & _).
  apply NoDup_cons in Hnd as [Hr Hnd]. apply NoDup_cons in Hnd as [Hw _].
  split; [|split].
  - intros E. apply Hr. rewrite E. left.
  - intros E. apply Hr. rewrite E. right. left.
  - intros E. apply Hw. rewrite E. left.
Qed.

(** With the tables of the file, every target is well configured. *)
Lemma targets_well_configured :
  go_semantics X -> Forall (well_configured X) (range_functionToProbes X).
Proof.
  intros Hgo. destruct (go_names_distinct Hgo) as (Hrw & Hrc & Hwc).
  destruct Hgo as (_ & Hperm & _).
  eapply Permutation_Forall; [symmetry; exact Hperm|].
  unfold functionToProbes, well_configured.
  repeat constructor; simpl; intros Hinc; try done.
  exfalso. revert Hinc. unfold functionsConfig_at, functionsConfig. simpl.
  rewrite lookup_insert_ne by done. rewrite lookup_insert_ne by done.
  by rewrite lookup_insert_eq.
Qed.

Lemma functionsConfig_at_tables :
  go_semantics X ->
  IncludeReturnLocations (functionsConfig_at X (ReadGoTLSFunc X)) = true
  /\ IncludeReturnLocations (functionsConfig_at X (WriteGoTLSFunc X)) = true
  /\ IncludeReturnLocations (functionsConfig_at X (CloseGoTLSFunc X)) = false.
Proof.
  intros Hgo. destruct (go_names_distinct Hgo) as (Hrw & Hrc & Hwc).
  unfold functionsConfig_at, functionsConfig. simpl. split; [|split].
  - rewrite lookup_insert_ne by done. by rewrite lookup_insert_eq.
  - by rewrite lookup_insert_eq.
  - rewrite lookup_insert_ne by done. rewrite lookup_insert_ne by done.
    by rewrite lookup_insert_eq.
Qed.

(** The outcome of the inner loop. *)
Lemma attachReturnHooks_outcome uprobes binPath uid offsets :
  forall i acc s,
    let r := attachReturnHooks X uprobes binPath uid i offsets acc s in
    match r.1 with
    | (ids, None) => ids = acc ++ return_probe_ids X uprobes uid i offsets
    | (ids, Some err) =>
        ids = [] /\ exists fmt attached newProbe e,
                      err = Wrapf fmt e /\ AddHook_err X attached newProbe = Some e
                      /\ BinaryPath newProbe = binPath
    end.
Proof.
  induction offsets as [|offset rest IH]; intros i acc s; cbn [attachReturnHooks].
  - simpl. by rewrite app_nil_r.
  - unfold_monad.
    destruct (AddHook X _ s) as [[e|] s1] eqn:HAdd; cbn [fst snd].
    + split; [done|]. apply AddHook_error in HAdd. eauto 8.
    + specialize (IH (i + 1)
                    (acc ++ [mkProbeID (returnInfo uprobes) (makeReturnUID X uid i)]) s1).
      cbn zeta in IH.
      destruct (attachReturnHooks X uprobes binPath uid (i + 1) rest _ s1)
        as [[ids [e|]] s2]; cbn [fst snd] in *; [exact IH|].
      rewrite IH. cbn [return_probe_ids]. by rewrite <- app_assoc.
Qed.

(** The outcome for one target. *)
Lemma attachHooks_function_outcome result binPath uid function uprobes acc s :
  well_configured X (function, uprobes) ->
  let r := attachHooks_function X result binPath uid function uprobes acc s in
  match r.1 with
  | (ids, None) => ids = acc ++ function_probe_ids X result uid (function, uprobes)
  | (ids, Some err) =>
      ids = [] /\ exists fmt attached newProbe e,
                    err = Wrapf fmt e /\ AddHook_err X attached newProbe = Some e
                    /\ BinaryPath newProbe = binPath
  end.
Proof.
  intros Hwf. unfold attachHooks_function, function_probe_ids, well_configured in *.
  cbn [fst snd] in *. unfold_monad.
  destruct (IncludeReturnLocations (functionsConfig_at X function)) eqn:Hinc.
  - destruct (decide (returnInfo uprobes = "")) as [Hempty|_]; [exfalso; by apply Hwf|].
    pose proof (attachReturnHooks_outcome uprobes binPath uid
                  (ReturnLocations (Functions_at result function)) 0 acc s) as Hret.
    cbn zeta in Hret.
    destruct (attachReturnHooks X uprobes binPath uid 0 _ acc s)
      as [[ids1 [e1|]] s1]; cbn [fst snd] in *; [split; [done|apply Hret]|].
    subst ids1.
    destruct (decide (functionInfo uprobes <> "")); [|by rewrite app_nil_r].
    destruct (AddHook X _ s1) as [[e|] s2] eqn:HAdd; cbn [fst snd].
    + split; [done|]. apply AddHook_error in HAdd. eauto 8.
    + by rewrite app_assoc.
  - cbn [fst snd].
    destruct (decide (functionInfo uprobes <> "")); [|by rewrite app_nil_r].
    destruct (AddHook X _ s) as [[e|] s2] eqn:HAdd; cbn [fst snd].
    + split; [done|]. apply AddHook_error in HAdd. eauto 8.
    + done.
Qed.

(** The outcome of the whole [range]. *)
Lemma attachHooks_range_outcome result binPath uid targets :
  Forall (well_configured X) targets ->
  forall acc s,
    let r := attachHooks_range X result binPath uid targets acc s in
    match r.1 with
    | (ids, None) => ids = acc ++ flat_map (function_probe_ids X result uid) targets
    | (ids, Some err) =>
        ids = [] /\ exists fmt attached newProbe e,
                      err = Wrapf fmt e /\ AddHook_err X attached newProbe = Some e
                      /\ BinaryPath newProbe = binPath
    end.
Proof.
  induction 1 as [|[function uprobes] rest Hwf _ IH]; intros acc s; cbn [attachHooks_range].
  - simpl. by rewrite app_nil_r.
  - unfold_monad.
    pose proof (attachHooks_function_outcome result binPath uid function uprobes acc s Hwf)
      as Hfun. cbn zeta in Hfun.
    destruct (attachHooks_function X result binPath uid function uprobes acc s)
      as [[ids1 [e1|]] s1]; cbn [fst snd] in *; [split; [done|apply Hfun]|].
    specialize (IH ids1 s1). cbn zeta in IH.
    destruct (attachHooks_range X result binPath uid rest ids1 s1)
      as [[ids2 [e2|]] s2]; cbn [fst snd] in *; [exact IH|].
    rewrite IH, Hfun. cbn [flat_map]. by rewrite app_assoc.
Qed.

(** X2.  With the two tables of the file, the only way [attachHooks] fails is
    that the manager refuses a probe: the error it returns wraps the error of
    an [AddHook] call on a probe of the binary, and the slice it returns is
    nil.  The error of a function configured with return locations but no
    return program cannot occur; so [attachHooks] succeeds whenever the
    manager accepts every probe. *)
Theorem attachHooks_fails_only_on_AddHook (result : Result) (binPath : string)
    (binID : PathIdentifier) (s : State) :
  go_semantics X ->
  let r := attachHooks X result binPath binID s in
  (forall err, r.1.2 = Some err ->
     r.1.1 = []
     /\ exists fmt attached newProbe e,
          err = Wrapf fmt e
          /\ AddHook_err X attached newProbe = Some e
          /\ BinaryPath newProbe = binPath)
  /\ ((forall attached newProbe, AddHook_err X attached newProbe = None) ->
      r.1.2 = None).
Proof.
  intros Hgo r.
  assert (Hfail : forall err, r.1.2 = Some err ->
            r.1.1 = []
            /\ exists fmt attached newProbe e,
                 err = Wrapf fmt e
                 /\ AddHook_err X attached newProbe = Some e
                 /\ BinaryPath newProbe = binPath).
  { intros err Herr. subst r. unfold attachHooks in *.
    pose proof (attachHooks_range_outcome result binPath (getUID X binID)
                  (range_functionToProbes X) (targets_well_configured Hgo) [] s) as H.
    cbn zeta in H.
    destruct (attachHooks_range X result binPath (getUID X binID) _ [] s)
      as [[ids [e|]] s']; cbn [fst snd] in *; [|done].
    by injection Herr as <-. }
  split; [done|]. intros Hok.
  destruct (r.1.2) as [err|] eqn:Herr; [|done].
  destruct (Hfail err eq_refl) as (_ & fmt & attached & newProbe & e & _ & He & _).
  by rewrite Hok in He.
Qed.

Lemma return_probe_ids_length uprobes uid offsets :
  forall i, length (return_probe_ids X uprobes uid i offsets) = length offsets.
Proof. induction offsets as [|o rest IH]; intros i; simpl; [done|by rewrite IH]. Qed.

Lemma return_probe_ids_elem uprobes uid offsets :
  forall i id,
    id ∈ return_probe_ids X uprobes uid i offsets ->
    exists k, i <= k /\ id = mkProbeID (returnInfo uprobes) (makeReturnUID X uid k).
Proof.
  induction offsets as [|o rest IH]; intros i id Hin; simpl in Hin.
  - by apply elem_of_nil in Hin.
  - apply elem_of_cons in Hin as [->|Hin].
    + exists i. split; [lia|done].
    + destruct (IH (i + 1) id Hin) as (k & Hk & ->). exists k. split; [lia|done].
Qed.

Lemma return_probe_ids_NoDup uprobes uid offsets :
  return_uids_distinct X uid ->
  forall i, 0 <= i -> NoDup (return_probe_ids X uprobes uid i offsets).
Proof.
  intros Hinj. induction offsets as [|o rest IH]; intros i Hi; simpl; [constructor|].
  apply NoDup_cons. split; [|apply IH; lia].
  intros Hin. apply return_probe_ids_elem in Hin as (k & Hk & Heq).
  injection Heq as Heq. apply Hinj in Heq; lia.
Qed.

(** The probes of the three targets, in the order of the table. *)
Lemma function_probe_ids_tables result uid :
  go_semantics X ->
  flat_map (function_probe_ids X result uid) (functionToProbes X)
  = return_probe_ids X (mkUprobesInfo connReadProbe connReadRetProbe) uid 0
      (ReturnLocations (Functions_at result (ReadGoTLSFunc X)))
    ++ [mkProbeID connReadProbe uid]
    ++ return_probe_ids X (mkUprobesInfo connWriteProbe connWriteRetProbe) uid 0
         (ReturnLocations (Functions_at result (WriteGoTLSFunc X)))
    ++ [mkProbeID connWriteProbe uid]
    ++ [mkProbeID connCloseProbe uid].
Proof.
  intros Hgo. destruct (functionsConfig_at_tables Hgo) as (Hr & Hw & Hc).
  unfold functionToProbes, function_probe_ids. cbn [flat_map fst snd].
  rewrite Hr, Hw, Hc. cbn [functionInfo returnInfo].
  repeat (destruct (decide _) as [_|Hne]; [|exfalso; apply Hne; discriminate]).
  rewrite app_nil_r. by rewrite <- !app_assoc.
Qed.

(** X3.  When [attachHooks] succeeds, the slice it returns lists exactly the
    probes it attached: one entry probe for each of Read, Write and Close, and
    one return probe for each return location of Read and of Write (none for
    Close); and, as long as [makeReturnUID] numbers the return probes of the
    binary apart, no identification pair occurs twice. *)
Theorem attachHooks_success_probes (result : Result) (binPath : string)
    (binID : PathIdentifier) (s : State) (ids : list ProbeIdentificationPair)
    (s' : State) :
  go_semantics X ->
  return_uids_distinct X (getUID X binID) ->
  attachHooks X result binPath binID s = (ids, None, s') ->
  hooks s' = hooks s ++ ids
  /\ length ids
     = (3 + length (ReturnLocations (Functions_at result (ReadGoTLSFunc X)))
          + length (ReturnLocations (Functions_at result (WriteGoTLSFunc X))))%nat
  /\ NoDup ids.
Proof.
  intros Hgo Hinj Hatt.
  destruct (attachHooks_frame X result binPath binID s) as (evs & Hfr & Hres).
  rewrite Hatt in Hfr, Hres. cbn [fst snd] in *. destruct Hres as [Hids _].
  destruct Hfr as (_ & Hhooks & _).
  pose proof (attachHooks_range_outcome result binPath (getUID X binID)
                (range_functionToProbes X) (targets_well_configured Hgo) [] s) as Hout.
  cbn zeta in Hout. unfold attachHooks in Hatt. rewrite Hatt in Hout.
  cbn [fst snd app] in Hout.
  assert (Hperm : Permutation ids
                    (flat_map (function_probe_ids X result (getUID X binID))
                       (functionToProbes X))).
  { rewrite Hout. apply Permutation_flat_map. by destruct Hgo as (_ & Hp & _). }
  rewrite (function_probe_ids_tables result (getUID X binID) Hgo) in Hperm.
  split; [by rewrite Hhooks, Hids|]. split.
  - rewrite (Permutation_length Hperm). rewrite !length_app, !return_probe_ids_length.
    simpl. lia.
  - rewrite Hperm.
    apply NoDup_app. split; [by apply return_probe_ids_NoDup|]. split.
    { intros id Hin Hin'. apply return_probe_ids_elem in Hin as (k & _ & ->).
      rewrite !elem_of_app, !list_elem_of_singleton in Hin'.
      destruct Hin' as [Hin'|[Hin'|[Hin'|Hin']]]; try discriminate.
      apply return_probe_ids_elem in Hin' as (k' & _ & Heq). discriminate. }
    apply NoDup_app. split; [apply NoDup_singleton|]. split.
    { intros id Hin Hin'. apply list_elem_of_singleton in Hin as ->.
      rewrite !elem_of_app, !list_elem_of_singleton in Hin'.
      destruct Hin' as [Hin'|[Hin'|Hin']]; try discriminate.
      apply return_probe_ids_elem in Hin' as (k' & _ & Heq). discriminate. }
    apply NoDup_app. split; [by apply return_probe_ids_NoDup|]. split.
    { intros id Hin Hin'. apply return_probe_ids_elem in Hin as (k & _ & ->).
      rewrite !elem_of_app, !list_elem_of_singleton in Hin'.
      destruct Hin' as [Hin'|Hin']; discriminate. }
    apply NoDup_app. split; [apply NoDup_singleton|]. split; [|apply NoDup_singleton].
    intros id Hin Hin'. apply list_elem_of_singleton in Hin as ->.
    apply list_elem_of_singleton in Hin'. discriminate.
Qed.

End AttachedProbes.

Lemma string_app_inv_head (s a b : string) : s +:+ a = s +:+ b -> a = b.
Proof.
  induction s as [|c s IH]; intros H; [done|].
  apply IH. by injection H.
Qed.

Lemma Host_return_uids_distinct (uid : string) : return_uids_distinct Host.env uid.
Proof.
  intros i j Hi Hj H. simpl in H.
  apply string_app_inv_head in H. apply (string_app_inv_head "_") in H.
  apply pretty_N_inj in H. by apply Z2N.inj.
Qed.

Lemma attachHooks_fails_only_on_AddHook_witness :
  let result :=
    Host.functions_of
      [ (Host.read_fn, mkFunctionMetadata 0x1000 [0x1040]);
        (Host.write_fn, mkFunctionMetadata 0x7fffffff [0x2040]);
        (Host.close_fn, mkFunctionMetadata 0x3000 []) ] in
  let r := attachHooks Host.env result "/usr/bin/broken" Host.broken_id Host.state0 in
  r.1.1 = [] /\ length (hooks r.2) = 3%nat.
Proof.
  intros result r.
  destruct (attachHooks_fails_only_on_AddHook Host.env result "/usr/bin/broken"
              Host.broken_id Host.state0 Host_go_semantics) as [Hfail _].
  split; [|vm_compute; reflexivity].
  refine (proj1 (Hfail (Wrapf "could not add hook for %q in offset %d due to: %w"
                          (Opaque "invalid argument")) _)).
  vm_compute. reflexivity.
Defined.

Lemma attachHooks_success_probes_witness :
  let result :=
    Host.functions_of
      [ (Host.read_fn, mkFunctionMetadata 0x1000 [0x1040; 0x1080]);
        (Host.write_fn, mkFunctionMetadata 0x2000 [0x2040]);
        (Host.close_fn, mkFunctionMetadata 0x3000 []) ] in
  let r := attachHooks Host.env result "/usr/bin/server" Host.server_id Host.state0 in
  r.1.2 = None /\ length r.1.1 = 6%nat /\ NoDup r.1.1 /\ hooks r.2 = r.1.1.
Proof.
  intros result r.
  assert (Hatt : attachHooks Host.env result "/usr/bin/server" Host.server_id Host.state0
                 = (r.1.1, None, r.2)) by (vm_compute; reflexivity).
  destruct (attachHooks_success_probes Host.env result "/usr/bin/server" Host.server_id
              Host.state0 r.1.1 r.2 Host_go_semantics
              (Host_return_uids_distinct _) Hatt) as (Hh & Hl & Hnd).
  split; [vm_compute; reflexivity|]. split; [vm_compute; reflexivity|].
  split; [exact Hnd|exact Hh].
Defined.

(** ** The entry points [GoTLSAttachPID] and [GoTLSDetachPID] *)

Section EntryPoints.

Context (X : Env).

(** X5.  [GoTLSAttachPID] never reports a duplicate registration: whatever
    the instance and the state, the error it returns neither is nor wraps
    [utils.ErrPathIsAlreadyRegistered]; with an instance, it returns nil
    exactly when [AttachPID] returned nil or such a duplicate error. *)
Theorem GoTLSAttachPID_never_reports_duplicate (instance : option goTLSProgram)
    (pid : Z) (w : World) :
  IsOpt (GoTLSAttachPID X instance pid w).1 ErrPathIsAlreadyRegistered = false
  /\ match instance with
     | None => (GoTLSAttachPID X instance pid w).1 = Some ErrGoTLSNotEnabled
     | Some p =>
         (GoTLSAttachPID X instance pid w).1 = None
         <-> ((AttachPID X p pid w).1 = None
              \/ IsOpt (AttachPID X p pid w).1 ErrPathIsAlreadyRegistered = true)
     end.
Proof.
  unfold GoTLSAttachPID. destruct instance as [p|]; [|done].
  destruct (AttachPID X p pid w) as [err w'] eqn:HA. cbn [fst snd].
  destruct (IsOpt err ErrPathIsAlreadyRegistered) eqn:Hdup; cbn [fst snd].
  - split; [done|]. split; [by right|done].
  - split; [done|]. split; [by left|]. by intros [?|?].
Qed.

End EntryPoints.

(** ** Scan requests of the host file system *)

(** X6.  The identifier of a host scan request is never empty: it is the
    root directory, unless the agent runs in a container and [HOST_ROOT] is
    set to a non-empty path, in which case it is that path. *)
Theorem NewHostScanRequest_ID (os_Getenv : string -> string) (IsContainerized : bool) :
  let r := HostScan.NewHostScanRequest os_Getenv IsContainerized in
  HostScan.ID r <> ""
  /\ (HostScan.ID r = "/"
      \/ IsContainerized = true /\ HostScan.ID r = os_Getenv "HOST_ROOT")
  /\ (HostScan.ID r <> "/" <-> (IsContainerized = true
                                /\ os_Getenv "HOST_ROOT" <> ""
                                /\ os_Getenv "HOST_ROOT" <> "/")).
Proof.
  unfold HostScan.NewHostScanRequest, HostScan.NewScanRequest, HostScan.ID.
  cbn [HostScan.Path].
  destruct IsContainerized; cbn [andb].
  - destruct (bool_decide_reflect (os_Getenv "HOST_ROOT" = "")) as [He|Hne]; cbn [negb].
    + split; [done|]. split; [by left|]. split; [done|]. by intros (_ & ? & _).
    + split; [done|]. split; [by right|]. split; [done|]. by intros (_ & _ & ?).
  - split; [done|]. split; [by left|]. split; [done|]. by intros (? & _).
Qed.

(** ** Registration callbacks: failure, isolation, undoing *)

Section RegistrationOutcome.

Context (X : Env).

Lemma addInspectionResultToMap_err binID result s e sa :
  addInspectionResultToMap X binID result s = (Some e, sa) ->
  (exists fmt e0, e = Wrapf fmt e0)
  /\ offsetsDataMap sa = offsetsDataMap s /\ hooks sa = hooks s
  /\ heap sa = heap s /\ binAnalysisMetric sa = binAnalysisMetric s.
Proof.
  unfold addInspectionResultToMap.
  destruct (inspectionResultToProbeData X result) as [data|e0]; unfold_monad.
  - unfold Map_Put. destruct (Put_err X (offsetsDataMap s) _) as [e0|]; [|congruence].
    intros [= <- <-]. simpl. eauto 10.
  - intros [= <- <-]. eauto 10.
Qed.

(** X7.  Whenever the first-registration callback returns an error, the
    error wraps its cause, the captured variable and the analysis-time
    counter are as before, no hook was detached, and the lookup table has no
    new entry: every other key is untouched, and the key of the binary is
    absent again if it was absent before. *)
Theorem registerCB_error_outcome (probeIDs : nat) (filePath : FilePath)
    (s : State) (err : error) (s' : State) :
  registerCBCreator X probeIDs filePath s = (Some err, s') ->
  let key := addInspectionResult_key (ID filePath) in
  (exists fmt e, err = Wrapf fmt e)
  /\ heap s' = heap s
  /\ binAnalysisMetric s' = binAnalysisMetric s
  /\ (exists added, hooks s' = hooks s ++ added)
  /\ (forall k, k <> key -> offsetsDataMap s' !! k = offsetsDataMap s !! k)
  /\ (offsetsDataMap s !! key = None -> offsetsDataMap s' = offsetsDataMap s).
Proof.
  intros Hreg key. revert Hreg. unfold registerCBCreator.
  assert (Hsame : forall fmt e, (Some (Wrapf fmt e), s) = (Some err, s') ->
            (exists fmt e, err = Wrapf fmt e)
            /\ heap s' = heap s
            /\ binAnalysisMetric s' = binAnalysisMetric s
            /\ (exists added, hooks s' = hooks s ++ added)
            /\ (forall k, k <> key -> offsetsDataMap s' !! k = offsetsDataMap s !! k)
            /\ (offsetsDataMap s !! key = None -> offsetsDataMap s' = offsetsDataMap s)).
  { intros fmt e [= <- <-]. split; [eauto|]. split; [done|]. split; [done|].
    split; [exists []; by rewrite app_nil_r|]. done. }
  destruct (os_Open X (HostPath filePath)) as [f|e0]; [|unfold_monad; apply Hsame].
  destruct (safeelf_NewFile X f) as [elfFile|e0]; [|unfold_monad; apply Hsame].
  destruct (InspectNewProcessBinary X elfFile) as [result|e0].
  2: { unfold_monad. destruct (Is e0 ErrNoSymbols); [|apply Hsame].
       intros [= <- <-]. simpl. split; [eauto|]. split; [done|]. split; [done|].
       split; [exists []; by rewrite app_nil_r|]. done. }
  clear Hsame. unfold bind at 1.
  destruct (addInspectionResultToMap X (ID filePath) result s) as [[e0|] sa] eqn:Hadd.
  { apply addInspectionResultToMap_err in Hadd as (_ & Hm & Hh & Hp & Ha).
    unfold_monad. intros [= <- <-]. split; [eauto|]. split; [done|]. split; [done|].
    split; [exists []; by rewrite app_nil_r|]. rewrite Hm. done. }
  apply addInspectionResultToMap_ok in Hadd as (data & _ & Hsa).
  unfold bind at 1.
  destruct (attachHooks_frame X result (HostPath filePath) (ID filePath) sa)
    as (evs & (_ & Hh & Hm & Hp & _ & Ha) & _).
  destruct (attachHooks X result (HostPath filePath) (ID filePath) sa)
    as [[ids [e0|]] sb]; cbn [fst snd] in *; [|unfold_monad; discriminate].
  unfold bind at 1.
  destruct (removeInspectionResultFromMap_spec (ID filePath) sb)
    as (Hm' & Hh' & Hp' & _ & Ha' & _).
  change (removeInspectionResult_key (ID filePath)) with key in Hm'.
  destruct (removeInspectionResultFromMap (ID filePath) sb) as [[] sc]; cbn [fst snd] in *.
  unfold ret. intros [= <- <-].
  assert (Hmap : offsetsDataMap sc = delete key (offsetsDataMap s)).
  { rewrite Hm', Hm, Hsa. simpl. apply delete_insert_eq. }
  split; [eauto|]. split; [rewrite Hp', Hp, Hsa; done|].
  split; [rewrite Ha', Ha, Hsa; done|].
  split; [exists (added_hooks evs); rewrite Hh', Hh, Hsa; done|].
  split.
  - intros k Hk. rewrite Hmap. by apply lookup_delete_ne.
  - intros Hnone. rewrite Hmap. by apply delete_id.
Qed.

(** X8.  The two callbacks made for one binary leave the variables captured
    for the other binaries alone: the first-registration callback writes at
    most its own variable, and the unregistration callback writes none (it
    does not reset its own either). *)
Theorem callbacks_write_own_variable_only (probeIDs other : nat)
    (filePath : FilePath) (s : State) :
  other <> probeIDs ->
  heap (registerCBCreator X probeIDs filePath s).2 !! other = heap s !! other
  /\ heap (unregisterCBCreator X probeIDs filePath s).2 = heap s.
Proof.
  intros Hne. split.
  - pose proof (registerCB_heap X probeIDs filePath s) as H. cbn zeta in H.
    destruct (registerCBCreator X probeIDs filePath s) as [[e|] s1]; cbn [fst snd] in *.
    + by rewrite H.
    + destruct H as [ids ->]. by apply list_lookup_insert_ne.
  - by destruct (unregisterCB_frame X probeIDs filePath s) as (H & _).
Qed.

Lemma detachHooks_attached (ids : list ProbeIdentificationPair) :
  detaches_attached X -> NoDup ids ->
  forall s, (forall h, h ∈ ids -> h ∈ hooks s) ->
    let s' := (detachHooks X ids s).2 in
    hooks s' = filter (fun h => h ∉ ids) (hooks s)
    /\ offsetsDataMap s' = offsetsDataMap s
    /\ trace s' = trace s ++ ((fun h => EvDetachHook h None) <$> ids).
Proof.
  intros Hok. induction ids as [|id rest IH]; intros Hnd s Hin; cbn zeta.
  - simpl. rewrite app_nil_r. split; [|done]. symmetry. apply filter_not_elem_nil.
  - apply NoDup_cons in Hnd as [Hfresh Hnd].
    rewrite detachHooks_cons. unfold DetachHook.
    rewrite (Hok (hooks s) id) by (apply Hin; left). cbn [fst snd].
    destruct (IH Hnd (emit (EvDetachHook id None)
                        (set_hooks (filter (fun h => h <> id) (hooks s)) s)))
      as (Hh & Hm & Ht).
    { intros h Hh. simpl. apply list_elem_of_filter. split.
      - intros ->. done.
      - apply Hin. by right. }
    cbn zeta in Hh, Hm, Ht. rewrite Hh, Hm, Ht. simpl.
    split; [apply filter_not_elem_cons|]. split; [done|].
    by rewrite <- app_assoc.
Qed.

Lemma filter_not_elem_self (ids : list ProbeIdentificationPair) :
  filter (fun h => h ∉ ids) ids = [].
Proof.
  assert (H : forall hs : list ProbeIdentificationPair,
            (forall h, h ∈ hs -> h ∈ ids) -> filter (fun h => h ∉ ids) hs = []).
  { induction hs as [|h hs IH]; intros Hsub; [done|].
    rewrite filter_cons_False by (intros Hn; apply Hn, Hsub; left).
    apply IH. intros h' Hin. apply Hsub. by right. }
  by apply H.
Qed.

Lemma filter_not_elem_disjoint (ids hs : list ProbeIdentificationPair) :
  (forall h, h ∈ hs -> h ∉ ids) -> filter (fun h => h ∉ ids) hs = hs.
Proof.
  intros Hdis. induction hs as [|h hs IH]; [done|].
  rewrite filter_cons_True by (apply Hdis; left).
  rewrite IH; [done|]. intros h' Hin. apply Hdis. by right.
Qed.

(** X9.  Registration followed by unregistration is a round trip.  When the
    first-registration callback succeeds for a binary that had no entry in
    the lookup table, no identification pair is attached twice afterwards,
    and the manager detaches what is attached, then the unregistration
    callback that shares its variable detaches exactly the probes that were
    added, each with one successful [DetachHook] and in the order they were
    attached, logs nothing, and leaves the attached probes and the lookup
    table as they were before the registration. *)
Theorem register_then_unregister_round_trip (probeIDs : nat) (filePath : FilePath)
    (s s1 : State) :
  go_semantics X ->
  detaches_attached X ->
  (probeIDs < length (heap s))%nat ->
  offsetsDataMap s !! addInspectionResult_key (ID filePath) = None ->
  registerCBCreator X probeIDs filePath s = (None, s1) ->
  NoDup (hooks s1) ->
  let r := unregisterCBCreator X probeIDs filePath s1 in
  r.1 = None
  /\ hooks r.2 = hooks s
  /\ offsetsDataMap r.2 = offsetsDataMap s
  /\ exists ids,
       hooks s1 = hooks s ++ ids
       /\ new_events s1 r.2
          = EvMapDelete (addInspectionResult_key (ID filePath)) None
              :: ((fun h => EvDetachHook h None) <$> ids).
Proof.
  intros Hgo Hok Hlen Hnone Hreg Hnd r.
  apply registerCB_success in Hreg as (data & evs & Hreg). cbn zeta in Hreg.
  destruct Hreg as (_ & Hh & Hm & Hp & _ & Hne).
  specialize (Hne Hgo). set (ids := added_hooks evs) in *.
  set (key := addInspectionResult_key (ID filePath)) in *.
  assert (Hcell : heap s1 !! probeIDs = Some ids).
  { rewrite Hp. by apply list_lookup_insert_eq. }
  split; [apply unregisterCB_returns_nil|].
  subst r. rewrite (unregisterCB_nonempty X probeIDs filePath ids s1 Hcell Hne).
  destruct (removeInspectionResultFromMap_spec (ID filePath) s1)
    as (Hm' & Hh' & _ & _ & _ & dr & Ht' & Hdr).
  change (removeInspectionResult_key (ID filePath)) with key in *.
  set (sa := (removeInspectionResultFromMap (ID filePath) s1).2) in *.
  assert (dr = None) as ->.
  { apply Hdr. rewrite Hm. rewrite lookup_insert_eq. eauto. }
  rewrite Hh in Hnd. apply NoDup_app in Hnd as (_ & Hdis & Hndi).
  destruct (detachHooks_attached ids Hok Hndi sa) as (Hh2 & Hm2 & Ht2).
  { intros h Hin. rewrite Hh', Hh. apply elem_of_app. by right. }
  cbn zeta in Hh2, Hm2, Ht2.
  split; [|split].
  - rewrite Hh2, Hh', Hh, filter_app, filter_not_elem_self, app_nil_r.
    by apply filter_not_elem_disjoint.
  - rewrite Hm2, Hm', Hm, delete_insert_eq. by apply delete_id.
  - exists ids. split; [done|].
    apply new_events_app. rewrite Ht2, Ht'. by rewrite <- app_assoc.
Qed.

End RegistrationOutcome.

Lemma registerCB_error_outcome_witness :
  let path := mkFilePath "/usr/bin/broken" Host.broken_id 400 in
  let r := registerCBCreator Host.env 0 path Host.state0 in
  is_Some r.1
  /\ heap r.2 = heap Host.state0
  /\ offsetsDataMap r.2 = offsetsDataMap Host.state0
  /\ length (hooks r.2) = 3%nat.
Proof.
  intros path r.
  assert (Hreg : registerCBCreator Host.env 0 path Host.state0
                 = (Some (Wrapf "error while attaching hooks to %s: %w"
                            (Wrapf "could not add hook for %q in offset %d due to: %w"
                               (Opaque "invalid argument"))), r.2))
    by (vm_compute; reflexivity).
  destruct (registerCB_error_outcome Host.env 0 path Host.state0 _ _ Hreg)
    as (_ & Hp & _ & _ & _ & Hm).
  split; [vm_compute; eauto|]. split; [exact Hp|].
  split; [apply Hm; reflexivity|vm_compute; reflexivity].
Defined.

Lemma callbacks_write_own_variable_only_witness :
  let path := mkFilePath "/usr/bin/server" Host.server_id 100 in
  let s := set_heap [[]; [mkProbeID connCloseProbe "g7"]] Host.state0 in
  heap (registerCBCreator Host.env 0 path s).2 !! 1%nat
  = Some [mkProbeID connCloseProbe "g7"]
  /\ length (default [] (heap (registerCBCreator Host.env 0 path s).2 !! 0%nat)) = 6%nat.
Proof.
  intros path s.
  destruct (callbacks_write_own_variable_only Host.env 0 1 path s) as [H _]; [lia|].
  split; [exact H|vm_compute; reflexivity].
Defined.

Lemma Host_detaches_attached : detaches_attached Host.env.
Proof.
  intros attached id Hin. simpl. unfold Host.detach_hook_err.
  by destruct (decide (id ∈ attached)).
Qed.

Lemma register_then_unregister_round_trip_witness :
  let path := mkFilePath "/usr/bin/server" Host.server_id 100 in
  let s := set_heap [[]] Host.state0 in
  let s1 := (registerCBCreator Host.env 0 path s).2 in
  let r := unregisterCBCreator Host.env 0 path s1 in
  length (hooks s1) = 6%nat
  /\ is_Some (offsetsDataMap s1 !! mkTlsBinaryId 8 3 1001)
  /\ hooks r.2 = hooks s
  /\ offsetsDataMap r.2 = offsetsDataMap s.
Proof.
  intros path s s1 r.
  assert (Hreg : registerCBCreator Host.env 0 path s = (None, s1))
    by (vm_compute; reflexivity).
  assert (Hnd : NoDup (hooks s1))
    by (apply (bool_decide_unpack _); vm_compute; reflexivity).
  destruct (register_then_unregister_round_trip Host.env 0 path s s1
              Host_go_semantics Host_detaches_attached
              ltac:(simpl; lia) eq_refl Hreg Hnd) as (_ & Hh & Hm & _).
  split; [vm_compute; reflexivity|]. split; [vm_compute; eauto|].
  split; [exact Hh|exact Hm].
Defined.

(** ** [Stop] can always return *)

Module LifecycleProgress.
Import Lifecycle.

Section Progress.

Context (X : Env) (p : goTLSProgram).

Lemma exec_app (l1 l2 : list Label) :
  forall sys,
    exec X p sys (l1 ++ l2)
    = match exec X p sys l1 with
      | Some sys1 => exec X p sys1 l2
      | None => None
      end.
Proof.
  induction l1 as [|l l1 IH]; intros sys; simpl; [done|].
  destruct (fire X p l sys); [apply IH|done].
Qed.

(** The pending handlers can run, one after the other, wherever the two
    goroutines stand; nothing else moves. *)
Lemma drain_handlers (n : nat) :
  forall sys, length (inflight sys) = n ->
    exists sys1,
      exec X p sys (replicate n (MonitorRun 0)) = Some sys1
      /\ stop_pc sys1 = stop_pc sys /\ loop_pc sys1 = loop_pc sys
      /\ inflight sys1 = [].
Proof.
  induction n as [|n IH]; intros sys Hlen.
  - exists sys. simpl. split; [done|]. split; [done|]. split; [done|].
    by apply length_zero_iff_nil.
  - destruct sys as [sp lp dc k se sx jobs w bc h]. simpl in Hlen.
    destruct jobs as [|j rest]; [discriminate|]. simpl in Hlen.
    injection Hlen as Hlen.
    destruct (IH (mkSystem sp lp dc k se sx rest (run_job X p j w) bc (h ++ [Handled j])))
      as (sys1 & Hexec & Hsp & Hlp & Hjobs); [done|].
    exists sys1. simpl. split; [exact Hexec|]. done.
Qed.

(** With no handler pending, the rest of the shutdown runs to the end. *)
Lemma finish_drained (sys : System) :
  Inv sys -> inflight sys = [] ->
  exists sys',
    exec X p sys
      (match stop_pc sys with NotCalled => [StopCloseDone] | _ => [] end
       ++ match loop_pc sys with Selecting => [LoopDone] | _ => [] end
       ++ replicate (remaining_deferred (loop_pc sys)) LoopDeferred
       ++ match stop_pc sys with Returned => [] | _ => [StopWaitReturns] end)
    = Some sys'
    /\ stop_pc sys' = Returned /\ loop_pc sys' = Exited.
Proof.
  intros [Hd Hw Hr Hl _ _ _ _ _] Hjobs.
  destruct sys as [sp lp dc k se sx jobs w bc h]. simpl in *. subst jobs dc k.
  destruct sp.
  - destruct lp; try (exfalso; by apply Hl).
    eexists. simpl. split; [reflexivity|]. done.
  - destruct lp; eexists; simpl; (split; [reflexivity|]); done.
  - rewrite (Hr eq_refl). eexists. simpl. split; [reflexivity|]. done.
Qed.

(** X10.  The shutdown cannot get stuck.  From every state that [PreStart]
    followed by any interleaving of ticks, process events, handlers and
    steps of [Stop] can reach, the interleaving can be continued, without a
    further tick or process event, so that [Stop] returns: the pending
    handlers run, [p.done] is closed if it was not, the loop takes that case,
    its deferred function runs to [p.wg.Done()], and [p.wg.Wait()] returns. *)
Theorem Stop_can_always_return (w0 : World) (schedule : list Label) (sys : System) :
  exec X p (started w0) schedule = Some sys ->
  exists sys',
    exec X p (started w0) (schedule ++ shutdown_schedule sys) = Some sys'
    /\ stop_pc sys' = Returned
    /\ loop_pc sys' = Exited
    /\ inflight sys' = [].
Proof.
  intros Hexec.
  destruct (drain_handlers (length (inflight sys)) sys eq_refl)
    as (sys1 & Hdrain & Hsp & Hlp & Hjobs).
  assert (Hinv : Inv sys1).
  { apply (LifecycleFacts.exec_Inv X p (schedule ++ replicate (length (inflight sys)) (MonitorRun 0))
             (started w0)); [apply LifecycleFacts.Inv_started|].
    by rewrite exec_app, Hexec. }
  destruct (finish_drained sys1 Hinv Hjobs) as (sys' & Hfin & Hret & Hex).
  exists sys'. unfold shutdown_schedule.
  rewrite exec_app, Hexec, exec_app, Hdrain. rewrite <- Hsp, <- Hlp.
  split; [exact Hfin|]. split; [done|]. split; [done|].
  assert (Hinv' : Inv sys').
  { eapply LifecycleFacts.exec_Inv; [exact Hinv|exact Hfin]. }
  destruct Hinv' as [_ _ _ _ _ _ _ Hdr _]. rewrite Hex in Hdr.
  by destruct (Hdr eq_refl).
Qed.

End Progress.

End LifecycleProgress.

(** A process of [server] is announced and a tick runs the reconciliation
    before anyone calls [Stop]. *)
Lemma Stop_can_always_return_witness :
  let schedule :=
    [ Lifecycle.MonitorNotify (Lifecycle.JobStart 100);
      Lifecycle.LoopTick;
      Lifecycle.MonitorNotify (Lifecycle.JobExit 300) ] in
  exists sys sys',
    Lifecycle.exec Host.env Host.program (Lifecycle.started Host.world0) schedule = Some sys
    /\ Lifecycle.exec Host.env Host.program (Lifecycle.started Host.world0)
         (schedule ++ shutdown_schedule sys) = Some sys'
    /\ length (shutdown_schedule sys) = 11%nat
    /\ Lifecycle.stop_pc sys' = Lifecycle.Returned.
Proof.
  intros schedule.
  assert (Hlen : (fun sys => length (shutdown_schedule sys))
                   <$> Lifecycle.exec Host.env Host.program
                         (Lifecycle.started Host.world0) schedule
                 = Some 11%nat) by (vm_compute; reflexivity).
  destruct (Lifecycle.exec Host.env Host.program (Lifecycle.started Host.world0) schedule)
    as [sys|] eqn:Hexec; [|discriminate].
  destruct (LifecycleProgress.Stop_can_always_return Host.env Host.program
              Host.world0 schedule sys Hexec) as (sys' & Hrun & Hret & _).
  exists sys, sys'. split; [reflexivity|]. split; [exact Hrun|].
  split; [by injection Hlen|exact Hret].
Defined.

(** ** Shutdown after a partial installation *)

(** C4.  (The code departs from the specification here.)  On [Host], after a
    successful [PreStart], process 400 of [/usr/bin/broken] and process 100
    of [/usr/bin/server] start and their handlers run; neither process
    exits.  Nine hooks are then attached: six of [server], recorded for its
    registry entry, and the three that [attachHooks] had added for [broken]
    before its fourth [AddHook] failed, which no entry records.  [Stop] is
    then called and returns after the loop was signalled, both handlers were
    unsubscribed, [procMonitor.Stop()] waited and [Registry.Clear()] ran, in
    this order, and the registry is empty; [Clear] detached the six hooks of
    [server], every [DetachHook] it called succeeded, but the three hooks of
    [broken] are still attached when [Stop] has returned. *)
Theorem Stop_leaves_partial_install_attached :
  let events :=
    [ Lifecycle.MonitorNotify (Lifecycle.JobStart 400);
      Lifecycle.MonitorNotify (Lifecycle.JobStart 100);
      Lifecycle.MonitorRun 0; Lifecycle.MonitorRun 0 ] in
  let stop :=
    [ Lifecycle.StopCloseDone; Lifecycle.LoopDone;
      Lifecycle.LoopDeferred; Lifecycle.LoopDeferred; Lifecycle.LoopDeferred;
      Lifecycle.LoopDeferred; Lifecycle.LoopDeferred; Lifecycle.LoopDeferred;
      Lifecycle.StopWaitReturns ] in
  let leaked :=
    [ mkProbeID connReadRetProbe "g1003_0";
      mkProbeID connReadProbe "g1003";
      mkProbeID connWriteRetProbe "g1003_0" ] in
  let recorded :=
    [ mkProbeID connReadRetProbe "g1001_0";
      mkProbeID connReadRetProbe "g1001_1";
      mkProbeID connReadProbe "g1001";
      mkProbeID connWriteRetProbe "g1001_0";
      mkProbeID connWriteProbe "g1001";
      mkProbeID connCloseProbe "g1001" ] in
  exists running stopped,
    Lifecycle.exec Host.env Host.program (Lifecycle.started Host.world0) events
    = Some running
    /\ Lifecycle.exec Host.env Host.program (Lifecycle.started Host.world0) (events ++ stop)
       = Some stopped
    /\ Lifecycle.stop_pc running = Lifecycle.NotCalled
    /\ hooks (state (Lifecycle.world running)) = leaked ++ recorded
    /\ elements (GetRegisteredProcesses (Lifecycle.world running)) = [100]
    /\ Lifecycle.stop_pc stopped = Lifecycle.Returned
    /\ Lifecycle.shutdown_events (Lifecycle.history stopped)
       = [ Lifecycle.CloseDone; Lifecycle.TickerStop; Lifecycle.UnsubscribeExec;
           Lifecycle.UnsubscribeExit; Lifecycle.MonitorStop; Lifecycle.RegistryClear;
           Lifecycle.WgDone; Lifecycle.StopReturns ]
    /\ registry (Lifecycle.world stopped) = ∅
    /\ new_events (state (Lifecycle.world running)) (state (Lifecycle.world stopped))
       = EvMapDelete (addInspectionResult_key Host.server_id) None
           :: ((fun h => EvDetachHook h None) <$> recorded)
    /\ hooks (state (Lifecycle.world stopped)) = leaked.
Proof.
  intros events stop leaked recorded.
  assert (H : match Lifecycle.exec Host.env Host.program
                      (Lifecycle.started Host.world0) events,
                    Lifecycle.exec Host.env Host.program
                      (Lifecycle.started Host.world0) (events ++ stop) with
              | Some running, Some stopped =>
                  Some (Lifecycle.stop_pc running,
                        hooks (state (Lifecycle.world running)),
                        elements (GetRegisteredProcesses (Lifecycle.world running)),
                        Lifecycle.stop_pc stopped,
                        Lifecycle.shutdown_events (Lifecycle.history stopped),
                        map_to_list (registry (Lifecycle.world stopped)),
                        new_events (state (Lifecycle.world running))
                          (state (Lifecycle.world stopped)),
                        hooks (state (Lifecycle.world stopped)))
              | _, _ => None
              end
              = Some (Lifecycle.NotCalled, leaked ++ recorded, [100],
                      Lifecycle.Returned,
                      [ Lifecycle.CloseDone; Lifecycle.TickerStop;
                        Lifecycle.UnsubscribeExec; Lifecycle.UnsubscribeExit;
                        Lifecycle.MonitorStop; Lifecycle.RegistryClear;
                        Lifecycle.WgDone; Lifecycle.StopReturns ],
                      [],
                      EvMapDelete (addInspectionResult_key Host.server_id) None
                        :: ((fun h => EvDetachHook h None) <$> recorded),
                      leaked))
    by (vm_compute; reflexivity).
  destruct (Lifecycle.exec Host.env Host.program (Lifecycle.started Host.world0) events)
    as [running|]; [|discriminate H].
  destruct (Lifecycle.exec Host.env Host.program (Lifecycle.started Host.world0)
              (events ++ stop)) as [stopped|]; [|discriminate H].
  injection H as Hpc Hhooks Hpids Hpc' Hev Hreg Hnew Hhooks'.
  exists running, stopped.
  split; [reflexivity|]. split; [reflexivity|].
  split; [exact Hpc|]. split; [exact Hhooks|]. split; [exact Hpids|].
  split; [exact Hpc'|]. split; [exact Hev|].
  split; [by apply map_to_list_empty_iff|].
  split; [exact Hnew|exact Hhooks'].
Qed.
